(** * The dynamic filter-chain manager of pkg/filter/filter_manager.go

    A shallow embedding of [filterManager] (NewFilterManager, GetFilters,
    Load, Apply) over an explicit store: a heap of filter objects, a heap
    of slice backing arrays, the plugin registry and the trace of calls
    into the packages the manager uses (extension, yaml, logger). *)

From stdpp Require Import base option list gmap strings.

Set Default Proof Using "Type".

(** ** Go values *)

(** Go [error] values as the manager builds them with github.com/pkg/errors. *)
Inductive error : Type :=
  | errors_New (msg : string)
  | errors_Wrap (cause : error) (msg : string).

(** Heap addresses. *)
Abbreviation loc := positive.

(** An [extension.HttpFilter] interface value: [None] is Go's nil, [Some l]
    points to the filter object stored at [l]. *)
Abbreviation HttpFilter := (option loc).

(** A slice header: backing array, length, capacity. *)
Record slice : Type := Slice { sl_arr : loc; sl_len : nat; sl_cap : nat }.

(** [sync.RWMutex]: the writer flag and the number of readers holding it. *)
Record RWMutex : Type := RWMu { writer : bool; readers : nat }.

Definition RWMutex_zero : RWMutex := RWMu false 0.

(** [filterManager]: the struct of filter_manager.go, lines 36-40. *)
Record filterManager : Type := FilterManager { filters : slice; mu : RWMutex }.

(** What the package takes from outside: the filter implementations behind
    the [extension.HttpFilter] interface, the yaml binder and the growth
    policy of the Go runtime. *)
Class Env : Type := {
  (** [map[string]interface{}], the raw options of one descriptor *)
  Options : Type;
  (** the state of a filter object, its configuration structure included *)
  FilterObj : Type;
  (** [yaml.ParseConfig(filter.Config(), conf)] on the object owning the
      configuration structure: binds in place, may report an error *)
  yaml_ParseConfig : FilterObj -> Options -> FilterObj * option error;
  (** the [Apply()] method of a filter object: one-time initialisation *)
  HttpFilter_Apply : FilterObj -> FilterObj * option error;
  (** the capacity [append] picks when it outgrows an array, from the old
      capacity and the length needed *)
  growslice : nat -> nat -> nat
}.

Section Model.
Context `{!Env}.

(** [model.Filter]: one descriptor of the configuration. [Load] receives
    pointers to descriptors; the embedding takes the records pointed to. *)
Record model_Filter : Type := Filter { Name : string; Config : Options }.

(** [extension.HttpFilterPlugin]: a factory, [CreateFilter] gives a fresh
    unconfigured object or an error. *)
Record HttpFilterPlugin : Type := Plugin { CreateFilter : FilterObj + error }.

(** Calls that leave the package. *)
Inductive Event : Type :=
  | GetHttpFilterPlugin_call (name : string)
  | CreateFilter_call (name : string)
  | Config_call (filter : loc)
  | ParseConfig_call (factoryConf : loc) (conf : Options)
  | Apply_call (filter : loc)
  | logger_Errorf (err : error).

(** Everything outside the manager struct. *)
Record World : Type := mkWorld {
  registry : gmap string HttpFilterPlugin;
  objs : gmap loc FilterObj;
  arrays : gmap loc (list HttpFilter);
  trace : list Event
}.

Record St : Type := mkSt { fm : filterManager; world : World }.

Definition set_objs (f : gmap loc FilterObj -> gmap loc FilterObj) (s : St) : St :=
  let w := world s in
  mkSt (fm s) (mkWorld (registry w) (f (objs w)) (arrays w) (trace w)).

Definition set_arrays
    (f : gmap loc (list HttpFilter) -> gmap loc (list HttpFilter)) (s : St) : St :=
  let w := world s in
  mkSt (fm s) (mkWorld (registry w) (objs w) (f (arrays w)) (trace w)).

Definition emit (e : Event) (s : St) : St :=
  let w := world s in
  mkSt (fm s) (mkWorld (registry w) (objs w) (arrays w) (trace w ++ [e])).

Definition set_filters (x : slice) (s : St) : St :=
  mkSt (FilterManager x (mu (fm s))) (world s).

Definition set_mu (m : RWMutex) (s : St) : St :=
  mkSt (FilterManager (filters (fm s)) m) (world s).

(** ** The monad of method bodies

    A computation takes the state and returns a value and the new state,
    or [None] when it does not return (blocked on the mutex, or aborted
    by the runtime). *)
Definition M (A : Type) : Type := St -> option (A * St).

#[global] Instance M_ret : MRet M := λ A a s, Some (a, s).
#[global] Instance M_bind : MBind M := λ A B f m s,
  match m s with
  | Some (a, s') => f a s'
  | None => None
  end.

Definition get : M St := λ s, Some (s, s).
Definition modify (f : St -> St) : M unit := λ s, Some (tt, f s).
Definition abort {A} : M A := λ _, None.

(** ** sync.RWMutex, as one goroutine sees it *)

Definition RLock : M unit :=
  s ← get;
  if writer (mu (fm s)) then abort
  else modify (set_mu (RWMu false (S (readers (mu (fm s)))))).

Definition RUnlock : M unit :=
  s ← get;
  match readers (mu (fm s)) with
  | O => abort
  | S n => modify (set_mu (RWMu (writer (mu (fm s))) n))
  end.

Definition Lock : M unit :=
  s ← get;
  match writer (mu (fm s)), readers (mu (fm s)) with
  | false, O => modify (set_mu (RWMu true 0))
  | _, _ => abort
  end.

Definition Unlock : M unit :=
  s ← get;
  if writer (mu (fm s)) then modify (set_mu (RWMu false (readers (mu (fm s)))))
  else abort.

(** ** Slices *)

(** [make([]extension.HttpFilter, 0, cap)]: a fresh array of nils. *)
Definition make_slice (cap : nat) : M slice :=
  s ← get;
  let a := fresh (dom (arrays (world s))) in
  modify (set_arrays <[a := replicate cap None]>);;
  mret (Slice a 0 cap).

(** The sequence seen through a slice header. *)
Definition elems (w : World) (x : slice) : list HttpFilter :=
  take (sl_len x) (default [] (arrays w !! sl_arr x)).

(** [append(x, v)]: in place while the capacity lasts, else into a new
    array. *)
Definition append (x : slice) (v : HttpFilter) : M slice :=
  if decide (sl_len x < sl_cap x) then
    modify (set_arrays (alter <[sl_len x := v]> (sl_arr x)));;
    mret (Slice (sl_arr x) (S (sl_len x)) (sl_cap x))
  else
    s ← get;
    let a := fresh (dom (arrays (world s))) in
    let n := S (sl_len x) in
    let c := n `max` growslice (sl_cap x) n in
    modify (set_arrays
              <[a := elems (world s) x ++ v :: replicate (c - n) None]>);;
    mret (Slice a n c).

(** ** The packages the manager calls *)

(** Modelled from the spec: [extension.GetHttpFilterPlugin] is not among
    the sources; it resolves the name against the plugin registry and
    fails when no factory is registered under it. *)
Definition extension_GetHttpFilterPlugin (name : string)
    : M (HttpFilterPlugin + error) :=
  modify (emit (GetHttpFilterPlugin_call name));;
  s ← get;
  match registry (world s) !! name with
  | Some plugin => mret (inl plugin)
  | None => mret (inr (errors_New "plugin not found"))
  end.

(** [plugin.CreateFilter()]: the new object is put on the heap. *)
Definition plugin_CreateFilter (name : string) (plugin : HttpFilterPlugin)
    : M (loc + error) :=
  modify (emit (CreateFilter_call name));;
  match CreateFilter plugin with
  | inl o =>
      s ← get;
      let l := fresh (dom (objs (world s))) in
      modify (set_objs <[l := o]>);;
      mret (inl l)
  | inr err => mret (inr err)
  end.

(** [filter.Config()]: a pointer to the configuration structure inside
    the object, addressed through the object. *)
Definition filter_Config (filter : loc) : M loc :=
  modify (emit (Config_call filter));;
  mret filter.

(** [yaml.ParseConfig(factoryConf, conf)] through the pointer. *)
Definition ParseConfig (factoryConf : loc) (conf : Options) : M (option error) :=
  modify (emit (ParseConfig_call factoryConf conf));;
  s ← get;
  match objs (world s) !! factoryConf with
  | None => abort
  | Some o =>
      let '(o', err) := yaml_ParseConfig o conf in
      modify (set_objs <[factoryConf := o']>);;
      mret err
  end.

(** [filter.Apply()] through the pointer. *)
Definition filter_Apply (filter : loc) : M (option error) :=
  modify (emit (Apply_call filter));;
  s ← get;
  match objs (world s) !! filter with
  | None => abort
  | Some o =>
      let '(o', err) := HttpFilter_Apply o in
      modify (set_objs <[filter := o']>);;
      mret err
  end.

(** ** filter_manager.go *)

(** [NewFilterManager], lines 42-44. *)
Definition NewFilterManager (w : World) : filterManager * World :=
  let a := fresh (dom (arrays w)) in
  (FilterManager (Slice a 0 16) RWMutex_zero,
   mkWorld (registry w) (objs w) (<[a := replicate 16 None]> (arrays w)) (trace w)).

(** [GetFilters], lines 46-51. The deferred [RUnlock] runs after the
    result has been read. *)
Definition GetFilters : M slice :=
  RLock;;
  s ← get;
  let r := filters (fm s) in
  RUnlock;;
  mret r.

(** [Apply], lines 71-92. *)
Definition Apply (name : string) (conf : Options) : M (HttpFilter * option error) :=
  plugin ← extension_GetHttpFilterPlugin name;
  match plugin with
  | inr err => mret (None, Some (errors_New "filter not found"))
  | inl plugin =>
      filter ← plugin_CreateFilter name plugin;
      match filter with
      | inr err => mret (None, Some (errors_New "plugin create filter error"))
      | inl filter =>
          factoryConf ← filter_Config filter;
          err ← ParseConfig factoryConf conf;
          match err with
          | Some err => mret (None, Some (errors_Wrap err "config error"))
          | None =>
              err ← filter_Apply filter;
              match err with
              | Some err => mret (None, Some (errors_Wrap err "create fail"))
              | None => mret (Some filter, None)
              end
          end
      end
  end.

(** The body of the loop of [Load], lines 57-61. *)
Definition Load_body (f : model_Filter) (tmp : slice) : M slice :=
  '(apply, err) ← Apply (Name f) (Config f);
  match err with
  | Some err => modify (emit (logger_Errorf err))
  | None => mret tt
  end;;
  append tmp apply.

(** The loop of [Load], lines 56-62. *)
Fixpoint Load_loop (fs : list model_Filter) (tmp : slice) : M slice :=
  match fs with
  | [] => mret tmp
  | f :: fs => tmp ← Load_body f tmp; Load_loop fs tmp
  end.

(** [Load], lines 54-68. *)
Definition Load (fs : list model_Filter) : M unit :=
  tmp ← make_slice (length fs);
  tmp ← Load_loop fs tmp;
  Lock;;
  modify (set_filters tmp);;
  Unlock.

(** ** Goroutines

    One goroutine runs [Load] while others call [GetFilters]. Each is a
    program counter with its local variables; a step is what the
    goroutine does next on the shared state, [None] when it cannot move
    (blocked on the mutex, or finished). Assigning or reading the slice
    header [fm.filters] takes one step per word. *)

Inductive LoadPc : Type :=
  | L_make (fs : list model_Filter)
  | L_loop (fs : list model_Filter) (tmp : slice)
  | L_Lock (tmp : slice)
  | L_store_arr (tmp : slice)
  | L_store_len (tmp : slice)
  | L_store_cap (tmp : slice)
  | L_Unlock
  | L_done.

Inductive ReadPc : Type :=
  | R_RLock
  | R_read_arr
  | R_read_len (a : loc)
  | R_read_cap (a : loc) (n : nat)
  | R_RUnlock (r : slice)
  | R_done (r : slice).

(** [Load], lines 54-68, one statement at a time. *)
Definition Load_step (pc : LoadPc) : M LoadPc :=
  match pc with
  | L_make fs => tmp ← make_slice (length fs); mret (L_loop fs tmp)
  | L_loop [] tmp => mret (L_Lock tmp)
  | L_loop (f :: fs) tmp => tmp ← Load_body f tmp; mret (L_loop fs tmp)
  | L_Lock tmp => Lock;; mret (L_store_arr tmp)
  | L_store_arr tmp =>
      s ← get;
      let x := filters (fm s) in
      modify (set_filters (Slice (sl_arr tmp) (sl_len x) (sl_cap x)));;
      mret (L_store_len tmp)
  | L_store_len tmp =>
      s ← get;
      let x := filters (fm s) in
      modify (set_filters (Slice (sl_arr x) (sl_len tmp) (sl_cap x)));;
      mret (L_store_cap tmp)
  | L_store_cap tmp =>
      s ← get;
      let x := filters (fm s) in
      modify (set_filters (Slice (sl_arr x) (sl_len x) (sl_cap tmp)));;
      mret L_Unlock
  | L_Unlock => Unlock;; mret L_done
  | L_done => abort
  end.

(** [GetFilters], lines 46-51, one statement at a time; a goroutine that
    has its result may call again. *)
Definition GetFilters_step (pc : ReadPc) : M ReadPc :=
  match pc with
  | R_RLock => RLock;; mret R_read_arr
  | R_read_arr => s ← get; mret (R_read_len (sl_arr (filters (fm s))))
  | R_read_len a => s ← get; mret (R_read_cap a (sl_len (filters (fm s))))
  | R_read_cap a n => s ← get; mret (R_RUnlock (Slice a n (sl_cap (filters (fm s)))))
  | R_RUnlock r => RUnlock;; mret (R_done r)
  | R_done _ => mret R_RLock
  end.

(** The goroutines and what they share. *)
Record System : Type := mkSystem {
  shared : St;
  loader : LoadPc;
  getters : list ReadPc
}.

(** One step of the goroutine the scheduler picks: [None] is the loader,
    [Some i] the [i]-th caller of [GetFilters]. *)
Definition sched_step (t : option nat) (c : System) : option System :=
  match t with
  | None =>
      '(pc, s) ← Load_step (loader c) (shared c);
      Some (mkSystem s pc (getters c))
  | Some i =>
      pc ← getters c !! i;
      '(pc', s) ← GetFilters_step pc (shared c);
      Some (mkSystem s (loader c) (<[i := pc']> (getters c)))
  end.

Fixpoint run (sched : list (option nat)) (c : System) : option System :=
  match sched with
  | [] => Some c
  | t :: sched => c' ← sched_step t c; run sched c'
  end.

(** Whether the loader holds the write lock. *)
Definition in_critical (pc : LoadPc) : bool :=
  match pc with
  | L_store_arr _ | L_store_len _ | L_store_cap _ | L_Unlock => true
  | _ => false
  end.

(** Whether a caller of [GetFilters] holds the read lock. *)
Definition holds (pc : ReadPc) : nat :=
  match pc with
  | R_RLock | R_done _ => 0
  | _ => 1
  end.

(** ** The specification's vocabulary *)

(** The four build failures of the specification, as [Apply] reports them. *)
Definition PluginNotFound : error := errors_New "filter not found".
Definition InstantiationError : error := errors_New "plugin create filter error".
Definition ConfigBindError (cause : error) : error := errors_Wrap cause "config error".
Definition InitError (cause : error) : error := errors_Wrap cause "create fail".

(** The four steps of building one filter, in the order of section 4.1. *)
Inductive Step : Type := Resolve | Instantiate | Bind | Init.

(** The specification of one build, from the registry alone: the ready
    object, or the first step that fails with its error. *)
Definition build (reg : gmap string HttpFilterPlugin) (name : string) (conf : Options)
    : FilterObj + Step * error :=
  match reg !! name with
  | None => inr (Resolve, PluginNotFound)
  | Some plugin =>
      match CreateFilter plugin with
      | inr _ => inr (Instantiate, InstantiationError)
      | inl o =>
          match yaml_ParseConfig o conf with
          | (_, Some e) => inr (Bind, ConfigBindError e)
          | (o1, None) =>
              match HttpFilter_Apply o1 with
              | (_, Some e) => inr (Init, InitError e)
              | (o2, None) => inl o2
              end
          end
      end
  end.

(** The external calls a build makes on the object at [l] when every step
    is reached, and how many of them belong to the steps up to a given one. *)
Definition build_calls (name : string) (conf : Options) (l : loc) : list Event :=
  [GetHttpFilterPlugin_call name; CreateFilter_call name;
   Config_call l; ParseConfig_call l conf; Apply_call l].

Definition calls_upto (st : Step) : nat :=
  match st with Resolve => 1 | Instantiate => 2 | Bind => 4 | Init => 5 end.

(** What a build leaves at the address of the object it created, if it
    got as far as creating one. *)
Definition build_object (reg : gmap string HttpFilterPlugin) (name : string)
    (conf : Options) : option FilterObj :=
  plugin ← reg !! name;
  match CreateFilter plugin with
  | inr _ => None
  | inl o =>
      match yaml_ParseConfig o conf with
      | (o1, Some _) => Some o1
      | (o1, None) => Some (HttpFilter_Apply o1).1
      end
  end.

(** What [Apply] returns, calls and leaves on the heap when [l] is the next
    free address, read off the specification of the build. *)
Definition Apply_result (reg : gmap string HttpFilterPlugin) (name : string)
    (conf : Options) (l : loc) : HttpFilter * option error :=
  match build reg name conf with
  | inl _ => (Some l, None)
  | inr (_, e) => (None, Some e)
  end.

Definition Apply_calls (reg : gmap string HttpFilterPlugin) (name : string)
    (conf : Options) (l : loc) : list Event :=
  match build reg name conf with
  | inl _ => build_calls name conf l
  | inr (st, _) => take (calls_upto st) (build_calls name conf l)
  end.

Definition Apply_objs (reg : gmap string HttpFilterPlugin) (name : string)
    (conf : Options) (l : loc) (h : gmap loc FilterObj) : gmap loc FilterObj :=
  match build_object reg name conf with
  | Some o => <[l := o]> h
  | None => h
  end.

Definition succeeds (reg : gmap string HttpFilterPlugin) (f : model_Filter) : bool :=
  match build reg (Name f) (Config f) with inl _ => true | inr _ => false end.

(** What the chain entry [e] written for descriptor [f] is: the address of
    an object in the state the build specifies, or nil when the build fails. *)
Definition chain_entry (reg : gmap string HttpFilterPlugin)
    (h : gmap loc FilterObj) (f : model_Filter) (e : HttpFilter) : Prop :=
  match build reg (Name f) (Config f) with
  | inl o => ∃ l, e = Some l ∧ h !! l = Some o
  | inr _ => e = None
  end.

(** A manager at rest: nobody holds its mutex and its chain is allocated. *)
Definition at_rest (s : St) : Prop :=
  mu (fm s) = RWMutex_zero ∧ is_Some (arrays (world s) !! sl_arr (filters (fm s))).

(** A sequence of reloads, one after the other. *)
Fixpoint Loads (fss : list (list model_Filter)) : M unit :=
  match fss with
  | [] => mret tt
  | fs :: fss => Load fs;; Loads fss
  end.

(** ** The invariant of a reload running against readers

    [s0] is the state in which [Load fs] starts, [s1] the state in which
    the same [Load] ends when nothing runs beside it. *)

(** The header [Load fs] publishes when started in [s0]. *)
Definition new_chain (s0 : St) (fs : list model_Filter) : slice :=
  Slice (fresh (dom (arrays (world s0)))) (length fs) (length fs).

(** What holds of the shared state at each point of [Load]. *)
Definition loader_inv (s0 s1 : St) (fs : list model_Filter)
    (pc : LoadPc) (s : St) : Prop :=
  let old := filters (fm s0) in
  let new := new_chain s0 fs in
  match pc with
  | L_make fs' =>
      fs' = fs ∧ world s = world s0
      ∧ filters (fm s) = old ∧ writer (mu (fm s)) = false
  | L_loop rest tmp =>
      (∃ pre : list HttpFilter,
          tmp = Slice (sl_arr new) (length pre) (length pre + length rest)
          ∧ arrays (world s) !! sl_arr new
            = Some (pre ++ replicate (length rest) None))
      ∧ (∃ s', Load_loop rest tmp (mkSt (fm s0) (world s)) = Some (new, s')
               ∧ world s' = world s1)
      ∧ filters (fm s) = old ∧ writer (mu (fm s)) = false
  | L_Lock tmp =>
      tmp = new ∧ world s = world s1
      ∧ filters (fm s) = old ∧ writer (mu (fm s)) = false
  | L_store_arr tmp =>
      tmp = new ∧ world s = world s1
      ∧ filters (fm s) = old ∧ mu (fm s) = RWMu true 0
  | L_store_len tmp =>
      tmp = new ∧ world s = world s1
      ∧ filters (fm s) = Slice (sl_arr new) (sl_len old) (sl_cap old)
      ∧ mu (fm s) = RWMu true 0
  | L_store_cap tmp =>
      tmp = new ∧ world s = world s1
      ∧ filters (fm s) = Slice (sl_arr new) (sl_len new) (sl_cap old)
      ∧ mu (fm s) = RWMu true 0
  | L_Unlock =>
      world s = world s1 ∧ filters (fm s) = new ∧ mu (fm s) = RWMu true 0
  | L_done =>
      world s = world s1 ∧ filters (fm s) = new ∧ writer (mu (fm s)) = false
  end.

(** What holds of a caller of [GetFilters] at each of its points, [x]
    being the header currently in [fm.filters]. *)
Definition getter_inv (s0 : St) (fs : list model_Filter) (lpc : LoadPc)
    (x : slice) (pc : ReadPc) : Prop :=
  match pc with
  | R_RLock | R_read_arr => True
  | R_read_len a => a = sl_arr x
  | R_read_cap a n => a = sl_arr x ∧ n = sl_len x
  | R_RUnlock r | R_done r =>
      r = filters (fm s0) ∨ (r = new_chain s0 fs ∧ lpc = L_done)
  end.

Definition system_inv (s0 s1 : St) (fs : list model_Filter) (c : System) : Prop :=
  loader_inv s0 s1 fs (loader c) (shared c)
  ∧ arrays (world s0) ⊆ arrays (world (shared c))
  ∧ readers (mu (fm (shared c))) = sum_list (holds <$> getters c)
  ∧ Forall (getter_inv s0 fs (loader c) (filters (fm (shared c)))) (getters c).

(** What a call of [GetFilters] that has returned [r] may have got: the
    chain of [s0] or the chain of [s1], each read whole through [r]. *)
Definition old_or_new (s0 s1 : St) (w : World) (pc : ReadPc) : Prop :=
  match pc with
  | R_done r =>
      (r = filters (fm s0) ∧ elems w r = elems (world s0) (filters (fm s0)))
      ∨ (r = filters (fm s1) ∧ elems w r = elems (world s1) (filters (fm s1)))
  | _ => True
  end.

(** ** More vocabulary for reloads *)

(** The errors handed to [logger.Errorf], oldest first. *)
Definition logged (tr : list Event) : list error :=
  omap (λ e, match e with logger_Errorf err => Some err | _ => None end) tr.

(** The errors of the descriptors whose build fails, in their order. *)
Definition failures (reg : gmap string HttpFilterPlugin)
    (fs : list model_Filter) : list error :=
  omap (λ f, match build reg (Name f) (Config f) with
             | inr (_, e) => Some e
             | inl _ => None
             end) fs.

(** How many steps the goroutine of [Load] is from its end, and a caller
    of [GetFilters] from leaving the read lock. *)
Definition loader_dist (pc : LoadPc) : nat :=
  match pc with
  | L_make fs => length fs + 7
  | L_loop fs _ => length fs + 6
  | L_Lock _ => 5
  | L_store_arr _ => 4
  | L_store_len _ => 3
  | L_store_cap _ => 2
  | L_Unlock => 1
  | L_done => 0
  end.

Definition getter_dist (pc : ReadPc) : nat :=
  match pc with
  | R_read_arr => 4
  | R_read_len _ => 3
  | R_read_cap _ _ => 2
  | R_RUnlock _ => 1
  | R_RLock | R_done _ => 0
  end.

Definition system_dist (c : System) : nat :=
  loader_dist (loader c) + sum_list (getter_dist <$> getters c).

End Model.

(** ** A sample deployment

    One filter kind, [timeout], whose configuration is a number of seconds:
    binding fails on a value that is not a number, initialisation fails on
    zero; and a factory, [broken], that cannot create its filter. *)

#[local] Instance sample : Env := {|
  Options := list (string * option nat);
  FilterObj := nat * bool;
  yaml_ParseConfig := λ o conf,
    match list_find (λ kv, kv.1 = "timeout") conf with
    | Some (_, (_, Some n)) => ((n, o.2), None)
    | Some (_, (_, None)) => (o, Some (errors_New "cannot unmarshal"))
    | None => (o, None)
    end;
  HttpFilter_Apply := λ o,
    match o.1 with
    | O => (o, Some (errors_New "timeout must be positive"))
    | S _ => ((o.1, true), None)
    end;
  growslice := λ c n, 2 * c
|}.

Definition sample_registry : gmap string HttpFilterPlugin :=
  <["timeout" := Plugin (inl (5, false))]>
    (<["broken" := Plugin (inr (errors_New "out of memory"))]> ∅).

Definition sample_world : World := mkWorld sample_registry ∅ ∅ [].

Definition sample_St : St :=
  let '(m, w) := NewFilterManager sample_world in mkSt m w.

Definition sample_filters : list model_Filter :=
  [Filter "timeout" [("timeout", Some 3)]; Filter "missing" [];
   Filter "timeout" []].

(** A schedule for one reload against two readers: the first reader runs
    its whole call, then the reload runs to its end, then the second
    reader runs its call. *)
Definition sample_sched : list (option nat) :=
  replicate 5 (Some 0) ++ replicate 10 None ++ replicate 5 (Some 1).

Definition sample_System : System :=
  mkSystem sample_St (L_make sample_filters) (replicate 2 R_RLock).

(** The sample manager after a first [Load]: its chain has three entries. *)
Definition sample_loaded_St : St :=
  match Load sample_filters sample_St with
  | Some (_, s) => s
  | None => sample_St
  end.

(** * The sample provider of samples/dubbogo/multi/server/app/student.go

    The student cache [StudentDB] with its two indexes and the methods of
    [StudentProvider] over it. Students live on a heap and the indexes
    hold pointers to them, so an update through one index is seen through
    the other. *)

Module student.

(** [Student], lines 148-154. [Code] is an int64 and [Age] an int32; the
    code only compares them, so they are integers here. [Time] is an
    instant. *)
Record Student : Type := mkStudent {
  ID : string;
  Code : Z;
  Name : string;
  Age : Z;
  Time : Z
}.

(** A [*Student]: [None] is nil. *)
Abbreviation ptr := (option loc).

(** [StudentDB], lines 51-57; [lock] is true while the mutex is held. *)
Record StudentDB : Type := mkDB {
  nameIndex : gmap string loc;
  codeIndex : gmap Z loc;
  lock : bool
}.

(** What the provider sends outside: lines printed, the time slept, and
    the two registrations of [init]. *)
Inductive Arg : Type :=
  | AStudent (p : ptr)
  | AString (s : string)
  | AInt (z : Z).

Inductive Event : Type :=
  | Printf (format : string) (args : list Arg)
  | Sleep (seconds : Z)
  | SetProviderService
  | RegisterPOJO.

(** The package state: the global [studentCache], the heap of students
    and the events so far. *)
Record St : Type := mkSt {
  studentCache : StudentDB;
  heap : gmap loc Student;
  events : list Event
}.

(** A method body returns a value and the new state, or [None] when it
    does not return: blocked on the mutex or stopped by a panic. *)
Definition M (A : Type) : Type := St → option (A * St).

#[global] Instance M_ret : MRet M := λ A a s, Some (a, s).
#[global] Instance M_bind : MBind M := λ A B f m s,
  match m s with
  | Some (a, s') => f a s'
  | None => None
  end.

Definition get : M St := λ s, Some (s, s).
Definition put (s : St) : M unit := λ _, Some (tt, s).
Definition panic {A} : M A := λ _, None.

Definition set_nameIndex (m : gmap string loc) : M unit :=
  s ← get;
  let db := studentCache s in
  put (mkSt (mkDB m (codeIndex db) (lock db)) (heap s) (events s)).

Definition set_codeIndex (m : gmap Z loc) : M unit :=
  s ← get;
  let db := studentCache s in
  put (mkSt (mkDB (nameIndex db) m (lock db)) (heap s) (events s)).

Definition set_lock (b : bool) : M unit :=
  s ← get;
  let db := studentCache s in
  put (mkSt (mkDB (nameIndex db) (codeIndex db) b) (heap s) (events s)).

Definition emit (e : Event) : M unit :=
  s ← get; put (mkSt (studentCache s) (heap s) (events s ++ [e])).

(** [db.lock.Lock()] and [db.lock.Unlock()] on a [sync.Mutex]. *)
Definition Lock : M unit :=
  s ← get; if lock (studentCache s) then panic else set_lock true.

Definition Unlock : M unit :=
  s ← get; if lock (studentCache s) then set_lock false else panic.

(** Reading a field through a pointer: nil panics. *)
Definition deref (u : ptr) : M Student :=
  s ← get;
  match u with
  | None => panic
  | Some p =>
      match heap s !! p with
      | Some v => mret v
      | None => panic
      end
  end.

(** [&Student{...}]. *)
Definition new (v : Student) : M ptr :=
  s ← get;
  let p := fresh (dom (heap s)) in
  put (mkSt (studentCache s) (<[p := v]> (heap s)) (events s));;
  mret (Some p).

(** [r.ID = x] and [r.Age = x]. *)
Definition store_ID (r : ptr) (x : string) : M unit :=
  v ← deref r;
  s ← get;
  match r with
  | Some p =>
      put (mkSt (studentCache s)
             (<[p := mkStudent x (Code v) (Name v) (Age v) (Time v)]> (heap s))
             (events s))
  | None => panic
  end.

Definition store_Age (r : ptr) (x : Z) : M unit :=
  v ← deref r;
  s ← get;
  match r with
  | Some p =>
      put (mkSt (studentCache s)
             (<[p := mkStudent (ID v) (Code v) (Name v) x (Time v)]> (heap s))
             (events s))
  | None => panic
  end.

(** [existName], lines 121-132. *)
Definition existName (name : string) : M bool :=
  if decide (String.length name ≤ 0) then mret false
  else
    s ← get;
    match nameIndex (studentCache s) !! name with
    | Some _ => mret true
    | None => mret false
    end.

(** [existCode], lines 134-145. *)
Definition existCode (code : Z) : M bool :=
  if decide (code ≤ 0)%Z then mret false
  else
    s ← get;
    match codeIndex (studentCache s) !! code with
    | Some _ => mret true
    | None => mret false
    end.

(** [AddForName], lines 76-87. *)
Definition AddForName (u : ptr) : M bool :=
  v ← deref u;
  if decide (String.length (Name v) = 0) then mret false
  else
    s ← get;
    match nameIndex (studentCache s) !! Name v, u with
    | Some _, _ => mret false
    | None, Some p =>
        set_nameIndex (<[Name v := p]> (nameIndex (studentCache s)));;
        mret true
    | None, None => panic
    end.

(** [AddForCode], lines 90-101. *)
Definition AddForCode (u : ptr) : M bool :=
  v ← deref u;
  if decide (Code v ≤ 0)%Z then mret false
  else
    s ← get;
    match codeIndex (studentCache s) !! Code v, u with
    | Some _, _ => mret false
    | None, Some p =>
        set_codeIndex (<[Code v := p]> (codeIndex (studentCache s)));;
        mret true
    | None, None => panic
    end.

(** [Add], lines 60-73; the deferred [Unlock] runs on the way out. *)
Definition Add (u : ptr) : M bool :=
  Lock;;
  r ← (v ← deref u;
       if decide (Name v = EmptyString ∨ (Code v ≤ 0)%Z) then mret false
       else
         en ← existName (Name v);
         free ← (if en : bool then mret false
                 else ec ← existCode (Code v); mret (negb ec));
         if free : bool then
           a ← AddForName u;
           if a : bool then AddForCode u else mret false
         else mret false);
  Unlock;;
  mret r.

(** [GetByName], lines 104-110, and [GetByCode], lines 113-119: the
    pointer found (nil if none) and whether one was found. *)
Definition GetByName (n : string) : M (ptr * bool) :=
  Lock;;
  s ← get;
  let r := nameIndex (studentCache s) !! n in
  Unlock;;
  mret (r, bool_decide (is_Some r)).

Definition GetByCode (n : Z) : M (ptr * bool) :=
  Lock;;
  s ← get;
  let r := codeIndex (studentCache s) !! n in
  Unlock;;
  mret (r, bool_decide (is_Some r)).

(** [CreateStudent], lines 161-177. *)
Definition CreateStudent (student : ptr) : M (ptr * option error) :=
  emit (Printf "Req CreateStudent data: %#v \n" [AStudent student]);;
  match student with
  | None => mret (None, Some (errors_New "not found"))
  | Some _ =>
      v ← deref student;
      '(_, ok) ← GetByName (Name v);
      if ok : bool then mret (None, Some (errors_New "data is exist"))
      else
        b ← Add student;
        if b : bool then mret (student, None)
        else mret (None, Some (errors_New "add error"))
  end.

(** [GetStudentByName], lines 180-188. *)
Definition GetStudentByName (name : string) : M (ptr * option error) :=
  emit (Printf "Req GetStudentByName name: %#v \n" [AString name]);;
  '(r, ok) ← GetByName name;
  if negb ok then mret (None, None)
  else
    emit (Printf "Req GetStudentByName result: %#v \n" [AStudent r]);;
    mret (r, None).

(** [GetStudentByCode], lines 191-199. *)
Definition GetStudentByCode (code : Z) : M (ptr * option error) :=
  emit (Printf "Req GetStudentByCode name: %#v \n" [AInt code]);;
  '(r, ok) ← GetByCode code;
  if negb ok then mret (None, None)
  else
    emit (Printf "Req GetStudentByCode result: %#v \n" [AStudent r]);;
    mret (r, None).

(** [GetStudentTimeout], lines 202-212. *)
Definition GetStudentTimeout (name : string) : M (ptr * option error) :=
  emit (Printf "Req GetStudentByName name: %#v \n" [AString name]);;
  emit (Sleep 10);;
  '(r, ok) ← GetByName name;
  if negb ok then mret (None, None)
  else
    emit (Printf "Req GetStudentByName result: %#v \n" [AStudent r]);;
    mret (r, None).

(** [GetStudentByNameAndAge], lines 215-223. *)
Definition GetStudentByNameAndAge (name : string) (age : Z)
    : M (ptr * option error) :=
  emit (Printf "Req GetStudentByNameAndAge name: %s, age: %d \n"
          [AString name; AInt age]);;
  '(r, ok) ← GetByName name;
  hit ← (if ok : bool then v ← deref r; mret (bool_decide (Age v = age))
         else mret false);
  if hit : bool then
    emit (Printf "Req GetStudentByNameAndAge result: %#v \n" [AStudent r]);;
    mret (r, None)
  else mret (r, None).

(** The two assignments that end both update methods, lines 232-237 and
    248-253. *)
Definition copy_ID_Age (r student : ptr) : M unit :=
  v ← deref student;
  (if decide (String.length (ID v) ≠ 0) then store_ID r (ID v) else mret tt);;
  v ← deref student;
  (if decide (0 ≤ Age v)%Z then store_Age r (Age v) else mret tt).

(** [UpdateStudent], lines 226-239. *)
Definition UpdateStudent (student : ptr) : M (bool * option error) :=
  emit (Printf "Req UpdateStudent data: %#v \n" [AStudent student]);;
  v ← deref student;
  '(r, ok) ← GetByName (Name v);
  if negb ok then mret (false, Some (errors_New "not found"))
  else copy_ID_Age r student;; mret (true, None).

(** [UpdateStudentByName], lines 242-255. *)
Definition UpdateStudentByName (name : string) (student : ptr)
    : M (bool * option error) :=
  emit (Printf "Req UpdateStudentByName data: %#v \n" [AStudent student]);;
  '(r, ok) ← GetByName name;
  if negb ok then mret (false, Some (errors_New "not found"))
  else copy_ID_Age r student;; mret (true, None).

(** [Reference], lines 258-260, and [JavaClassName], lines 263-265. *)
Definition Reference : string := "StudentProvider".
Definition JavaClassName : string := "com.dubbogo.pixiu.StudentService".

(** [init], lines 33-46, [now1] and [now2] being what the two calls of
    [time.Now()] return. *)
Definition init (now1 now2 : Z) : M unit :=
  emit SetProviderService;;
  emit RegisterPOJO;;
  s ← get;
  put (mkSt (mkDB ∅ ∅ false) (heap s) (events s));;
  u ← new (mkStudent "0001" 1 "tc-student" 18 now1);
  Add u;;
  u ← new (mkStudent "0002" 2 "ic-student" 88 now2);
  Add u;;
  mret tt.

(** The state before [init]: nothing allocated, nothing printed. *)
Definition boot : St := mkSt (mkDB ∅ ∅ false) ∅ [].

(** ** What the cache keeps

    Nobody holds the mutex; a student filed under a name bears that name
    and is filed under its code as well, and the other way round. *)
Definition consistent (s : St) : Prop :=
  let db := studentCache s in
  lock db = false
  ∧ (∀ n p, nameIndex db !! n = Some p →
       ∃ v, heap s !! p = Some v ∧ Name v = n ∧ n ≠ EmptyString
            ∧ codeIndex db !! Code v = Some p)
  ∧ (∀ c p, codeIndex db !! c = Some p →
       ∃ v, heap s !! p = Some v ∧ Code v = c ∧ (0 < c)%Z
            ∧ nameIndex db !! Name v = Some p).

(** Whether [Add] files the student [v]: a name, a positive code, and
    neither taken. *)
Definition can_add (db : StudentDB) (v : Student) : bool :=
  bool_decide (Name v ≠ EmptyString ∧ (0 < Code v)%Z
               ∧ nameIndex db !! Name v = None
               ∧ codeIndex db !! Code v = None).

(** The cache with the student at [p] filed under its name and its code. *)
Definition filed (db : StudentDB) (p : loc) (v : Student) : StudentDB :=
  mkDB (<[Name v := p]> (nameIndex db)) (<[Code v := p]> (codeIndex db)) (lock db).

(** The state [init] leaves. *)
Definition booted (now1 now2 : Z) : St :=
  match init now1 now2 boot with
  | Some (_, s) => s
  | None => boot
  end.

(** A sample state: after [init], two students have arrived from a
    client, one under a new name and one under a name that is filed. *)
Definition newcomer : Student := mkStudent "0003" 3 "zc-student" 20 0.
Definition revision : Student := mkStudent "1111" 0 "tc-student" (-1) 0.

Definition sample : St :=
  match (new newcomer;; new revision) (booted 0 0) with
  | Some (_, s) => s
  | None => booted 0 0
  end.

(** The sample state while some goroutine holds the mutex. *)
Definition sample_locked : St :=
  mkSt (mkDB (nameIndex (studentCache sample)) (codeIndex (studentCache sample))
          true)
    (heap sample) (events sample).

(** What the update methods write into the student found. *)
Definition updated (old new : Student) : Student :=
  mkStudent (if decide (String.length (ID new) ≠ 0) then ID new else ID old)
    (Code old) (Name old)
    (if decide (0 ≤ Age new)%Z then Age new else Age old)
    (Time old).

End student.

(** * Properties *)

Section Properties.
Context `{!Env}.

Implicit Types (s : St) (w : World) (x r : slice) (fs : list model_Filter).

(** ** One build *)

Ltac unfold_M :=
  unfold mbind, M_bind, mret, M_ret, modify, get, abort, emit, set_objs,
    set_arrays, set_filters, set_mu; simpl.

Ltac unfold_M_in H :=
  unfold mbind, M_bind, mret, M_ret, modify, get, abort, emit, set_objs,
    set_arrays, set_filters, set_mu in H; simpl in H.

(** [Apply] always returns, and what it returns and does to the state is
    determined by the registry and the next free address. *)
Lemma Apply_run name conf s :
  let w := world s in
  let l := fresh (dom (objs w)) in
  Apply name conf s =
    Some (Apply_result (registry w) name conf l,
          mkSt (fm s)
            (mkWorld (registry w) (Apply_objs (registry w) name conf l (objs w))
               (arrays w) (trace w ++ Apply_calls (registry w) name conf l))).
Proof.
  destruct s as [m [reg h ar tr]]; simpl.
  unfold Apply, Apply_result, Apply_calls, Apply_objs, build, build_object,
    extension_GetHttpFilterPlugin, plugin_CreateFilter, filter_Config,
    ParseConfig, filter_Apply.
  unfold_M.
  destruct (reg !! name) as [p|] eqn:Hp; simpl; [|done].
  destruct (CreateFilter p) as [o|e]; simpl; [|by rewrite <- !(assoc_L (++))].
  rewrite lookup_insert_eq.
  destruct (yaml_ParseConfig o conf) as [o1 [e1|]]; simpl.
  { rewrite insert_insert_eq, <- !(assoc_L (++)). done. }
  rewrite lookup_insert_eq.
  destruct (HttpFilter_Apply o1) as [o2 [e2|]]; simpl;
    by rewrite !insert_insert_eq, <- !(assoc_L (++)).
Qed.

Lemma build_object_ready reg name conf o :
  build reg name conf = inl o → build_object reg name conf = Some o.
Proof.
  unfold build, build_object. destruct (reg !! name) as [p|]; simpl; [|done].
  destruct (CreateFilter p) as [o0|]; [|done].
  destruct (yaml_ParseConfig o0 conf) as [o1 [e1|]]; [done|].
  destruct (HttpFilter_Apply o1) as [o2 [e2|]]; simpl; congruence.
Qed.

Lemma Apply_objs_mono reg name conf (h : gmap loc FilterObj) :
  h ⊆ Apply_objs reg name conf (fresh (dom h)) h.
Proof.
  unfold Apply_objs. destruct (build_object reg name conf); [|done].
  apply insert_subseteq, not_elem_of_dom, is_fresh.
Qed.

Lemma alter_lookup_Some {A} (g : A → A) (m : gmap loc A) i y :
  m !! i = Some y → alter g i m = <[i := g y]> m.
Proof.
  intros Hi. apply map_eq; intros j. destruct (decide (i = j)) as [->|Hne].
  - by rewrite lookup_alter_eq, lookup_insert_eq, Hi.
  - by rewrite lookup_alter_ne, lookup_insert_ne.
Qed.

Lemma insert_middle_nil (pre : list HttpFilter) v n :
  <[length pre := v]> (pre ++ None :: replicate n None)
  = (pre ++ [v]) ++ replicate n None.
Proof.
  rewrite insert_app_r_alt, Nat.sub_diag by lia. simpl.
  by rewrite <- (assoc_L (++)).
Qed.

(** ** The loop of Load *)

(** One turn of the loop writes one entry into the free tail of the array
    [a] it was given and touches no other array, no earlier object and no
    field of the manager. *)
Lemma Load_body_run f a (pre : list HttpFilter) k w :
  arrays w !! a = Some (pre ++ None :: replicate k None) →
  ∃ v w',
    (∀ m, Load_body f (Slice a (length pre) (length pre + S k)) (mkSt m w)
          = Some (Slice a (S (length pre)) (length pre + S k), mkSt m w'))
    ∧ registry w' = registry w
    ∧ arrays w' = <[a := (pre ++ [v]) ++ replicate k None]> (arrays w)
    ∧ objs w ⊆ objs w'
    ∧ chain_entry (registry w) (objs w') f v
    ∧ (∀ l, v = Some l → (l ∉ dom (objs w)) ∧ l ∈ dom (objs w')).
Proof.
  destruct w as [reg h ar tr]; simpl. intros Ha.
  pose proof (Apply_objs_mono reg (Name f) (Config f) h) as Hmono.
  unfold Load_body, chain_entry.
  assert (Hlt : length pre < length pre + S k) by lia.
  destruct (build reg (Name f) (Config f)) as [o|[st e]] eqn:Hb.
  - exists (Some (fresh (dom h))). eexists (mkWorld _ _ _ _). split.
    { intros m. unfold mbind at 1, M_bind at 1. rewrite Apply_run. simpl.
      unfold Apply_result. rewrite Hb. unfold append. simpl.
      destruct (decide _); [|lia].
      unfold_M. by rewrite (alter_lookup_Some _ _ _ _ Ha), insert_middle_nil. }
    simpl. unfold Apply_objs in *.
    rewrite (build_object_ready _ _ _ _ Hb) in *.
    split; [done|]. split; [done|]. split; [done|]. split.
    + exists (fresh (dom h)). by rewrite lookup_insert_eq.
    + intros l [= <-]. split; [apply is_fresh|].
      rewrite dom_insert_L. set_solver.
  - exists None. eexists (mkWorld _ _ _ _). split.
    { intros m. unfold mbind at 1, M_bind at 1. rewrite Apply_run. simpl.
      unfold Apply_result. rewrite Hb. unfold append. simpl.
      destruct (decide _); [|lia].
      unfold_M. by rewrite (alter_lookup_Some _ _ _ _ Ha), insert_middle_nil. }
    simpl. split; [done|]. split; [done|]. split; [done|]. split; [done|].
    by intros l [=].
Qed.

(** The loop fills the free tail of its array, one entry per descriptor
    and in their order. *)
Lemma Load_loop_run fs : ∀ a (pre : list HttpFilter) w,
  arrays w !! a = Some (pre ++ replicate (length fs) None) →
  ∃ out w',
    (∀ m, Load_loop fs (Slice a (length pre) (length pre + length fs)) (mkSt m w)
          = Some (Slice a (length pre + length fs) (length pre + length fs),
                  mkSt m w'))
    ∧ registry w' = registry w
    ∧ arrays w' = <[a := pre ++ out]> (arrays w)
    ∧ objs w ⊆ objs w'
    ∧ Forall2 (chain_entry (registry w) (objs w')) fs out
    ∧ Forall (λ e, ∀ l, e = Some l → l ∉ dom (objs w)) out
    ∧ NoDup (omap id out).
Proof.
  induction fs as [|f fs IH]; intros a pre w Ha; simpl in Ha.
  - exists [], w. rewrite app_nil_r in *. simpl. rewrite Nat.add_0_r.
    split; [done|]. split; [done|]. split; [by rewrite insert_id|].
    split; [done|]. split; [constructor|]. split; constructor.
  - destruct (Load_body_run f a pre (length fs) w Ha)
      as (v & w1 & Hbody & Hreg1 & Har1 & Hobjs1 & Hv & Hvl).
    destruct (IH a (pre ++ [v]) w1)
      as (out & w' & Hloop & Hreg & Har & Hobjs & Hall & Hfresh & Hnd).
    { rewrite Har1. apply lookup_insert_eq. }
    rewrite length_app in Hloop. simpl in Hloop.
    exists (v :: out), w'. split.
    { intros m. simpl. unfold mbind, M_bind. rewrite Hbody.
      replace (S (length pre)) with (length pre + 1) by lia.
      replace (length pre + S (length fs)) with (length pre + 1 + length fs)
        by lia.
      apply Hloop. }
    split; [congruence|]. split.
    { by rewrite Har, Har1, insert_insert_eq, <- (assoc_L (++)). }
    split; [by etrans|]. split.
    { constructor; [|by rewrite <- Hreg1]. unfold chain_entry in *.
      destruct (build (registry w) (Name f) (Config f)); [|done].
      destruct Hv as (l & -> & Hl). exists l. split; [done|].
      by eapply lookup_weaken. }
    split.
    { constructor; [intros l Hl; by apply Hvl|].
      eapply Forall_impl; [exact Hfresh|]. simpl. intros e He l -> Hin.
      eapply (He l); [done|]. by eapply subseteq_dom. }
    destruct v as [l|]; simpl; [|done].
    destruct (Hvl l eq_refl) as [_ Hdom].
    constructor; [|done].
    intros Hin. apply list_elem_of_omap in Hin as (e & He & Hid). simpl in Hid.
    subst e. rewrite Forall_forall in Hfresh. by apply (Hfresh _ He l).
Qed.

(** ** One reload *)

(** [Load] on a manager whose mutex is free returns; it publishes a fresh
    array holding one entry per descriptor and leaves every other array
    and every earlier object as it was. *)
Lemma Load_run fs s :
  mu (fm s) = RWMutex_zero →
  ∃ s' out,
    Load fs s = Some (tt, s')
    ∧ fm s' = FilterManager
                (Slice (fresh (dom (arrays (world s)))) (length fs) (length fs))
                RWMutex_zero
    ∧ registry (world s') = registry (world s)
    ∧ arrays (world s') = <[fresh (dom (arrays (world s))) := out]> (arrays (world s))
    ∧ objs (world s) ⊆ objs (world s')
    ∧ Forall2 (chain_entry (registry (world s)) (objs (world s'))) fs out
    ∧ Forall (λ e, ∀ l, e = Some l → l ∉ dom (objs (world s))) out
    ∧ NoDup (omap id out).
Proof.
  destruct s as [[x m] [reg h ar tr]]; simpl. intros ->.
  set (a := fresh (dom ar)).
  destruct (Load_loop_run fs a []
              (mkWorld reg h (<[a := replicate (length fs) None]> ar) tr))
    as (out & w' & Hrun & Hreg & Har & Hobjs & Hall & Hfresh & Hnd).
  { simpl. apply lookup_insert_eq. }
  simpl in *.
  exists (mkSt (FilterManager (Slice a (length fs) (length fs)) RWMutex_zero) w'), out.
  split.
  { unfold Load, make_slice. unfold_M. fold a.
    rewrite Hrun. unfold Lock, Unlock. by unfold_M. }
  simpl. rewrite Har, insert_insert_eq. by repeat split.
Qed.

(** The chain read through the header [Load] published. *)
Lemma elems_insert_full w a (out : list HttpFilter) n :
  length out = n →
  arrays w !! a = Some out →
  elems w (Slice a n n) = out.
Proof.
  intros <- Ha. unfold elems; simpl. rewrite Ha. simpl. apply firstn_all.
Qed.

(** Arrays that only grow keep every allocated slice readable as before. *)
Lemma elems_mono w w' x :
  arrays w ⊆ arrays w' →
  is_Some (arrays w !! sl_arr x) →
  elems w' x = elems w x.
Proof.
  intros Hsub [y Hy]. unfold elems.
  by rewrite Hy, (lookup_weaken _ _ _ _ Hy Hsub).
Qed.

Lemma GetFilters_run s :
  writer (mu (fm s)) = false →
  GetFilters s = Some (filters (fm s), s).
Proof.
  destruct s as [[x [wr n]] w]; simpl. intros ->.
  unfold GetFilters, RLock, RUnlock. by unfold_M.
Qed.

Lemma Loads_run fss : ∀ s,
  mu (fm s) = RWMutex_zero →
  ∃ s',
    Loads fss s = Some (tt, s')
    ∧ mu (fm s') = RWMutex_zero
    ∧ registry (world s') = registry (world s)
    ∧ arrays (world s) ⊆ arrays (world s')
    ∧ objs (world s) ⊆ objs (world s')
    ∧ (fss = [] ∨ sl_arr (filters (fm s')) ∉ dom (arrays (world s))).
Proof.
  induction fss as [|fs fss IH]; intros s Hmu.
  - exists s. repeat split; try done. by left.
  - destruct (Load_run fs s Hmu)
      as (s1 & out & Hrun & Hfm & Hreg & Har & Hobjs & _).
    destruct (IH s1) as (s2 & Hrun2 & Hmu2 & Hreg2 & Har2 & Hobjs2 & Hnew).
    { by rewrite Hfm. }
    assert (Hsub : arrays (world s) ⊆ arrays (world s1)).
    { rewrite Har. apply insert_subseteq, not_elem_of_dom, is_fresh. }
    exists s2. split.
    { simpl. unfold mbind, M_bind. by rewrite Hrun. }
    split; [done|]. split; [congruence|]. split; [by etrans|].
    split; [by etrans|]. right.
    destruct Hnew as [->|Hnew].
    + simpl in Hrun2. injection Hrun2 as <-. rewrite Hfm. simpl. apply is_fresh.
    + intros Hin. apply Hnew. by eapply subseteq_dom.
Qed.

Lemma chain_entry_restrict reg (h : gmap loc FilterObj) fs (out : list HttpFilter) :
  Forall2 (chain_entry reg h) fs out →
  Forall2 (λ f l, ∃ o, build reg (Name f) (Config f) = inl o ∧ h !! l = Some o)
    (filter (λ f, succeeds reg f) fs) (omap id out).
Proof.
  induction 1 as [|f e fs out He _ IH]; [constructor|].
  unfold chain_entry in He. rewrite filter_cons.
  destruct (decide (succeeds reg f)) as [Hs|Hs]; unfold succeeds in Hs;
    destruct (build reg (Name f) (Config f)) as [o|[st err]] eqn:Hb;
    simpl in Hs; try done.
  - destruct He as (l & -> & Hl). simpl. constructor; [|done]. by exists o.
  - by subst e.
Qed.

Lemma chain_entry_nil reg (h : gmap loc FilterObj) fs (out : list HttpFilter) :
  Forall2 (chain_entry reg h) fs out →
  Forall2 (λ f e, if succeeds reg f then is_Some e else e = None) fs out.
Proof.
  intros Hall. eapply Forall2_impl; [exact Hall|].
  intros f e. unfold chain_entry, succeeds.
  destruct (build reg (Name f) (Config f)) as [o|[st err]]; [|done].
  intros (l & -> & _). by exists l.
Qed.

(** ** A reload running against readers *)

Lemma sum_list_insert {A} (g : A → nat) (l : list A) i y z :
  l !! i = Some y →
  sum_list (g <$> <[i := z]> l) + g y = sum_list (g <$> l) + g z.
Proof.
  revert i. induction l as [|b l IH]; intros [|i] Hi; simplify_eq/=; [lia|].
  specialize (IH i Hi). lia.
Qed.

Lemma sum_list_lookup_le {A} (g : A → nat) (l : list A) i y :
  l !! i = Some y → g y ≤ sum_list (g <$> l).
Proof.
  revert i. induction l as [|b l IH]; intros [|i] Hi; simplify_eq/=; [lia|].
  specialize (IH i Hi). lia.
Qed.

Lemma sum_list_0_Forall {A} (g : A → nat) (l : list A) :
  sum_list (g <$> l) = 0 → Forall (λ y, g y = 0) l.
Proof.
  induction l as [|b l IH]; csimpl; intros Hs; constructor; [lia|].
  apply IH. lia.
Qed.

(** The sequential [Load], split at the end of its loop. *)
Lemma Load_unfold fs s0 s1 :
  mu (fm s0) = RWMutex_zero →
  Load fs s0 = Some (tt, s1) →
  fm s1 = FilterManager (new_chain s0 fs) RWMutex_zero
  ∧ arrays (world s0) ⊆ arrays (world s1)
  ∧ ∃ s',
      Load_loop fs (Slice (fresh (dom (arrays (world s0)))) 0 (length fs))
        (mkSt (fm s0)
           (mkWorld (registry (world s0)) (objs (world s0))
              (<[fresh (dom (arrays (world s0))) := replicate (length fs) None]>
                 (arrays (world s0)))
              (trace (world s0))))
      = Some (new_chain s0 fs, s')
      ∧ world s' = world s1.
Proof.
  intros Hmu Hload.
  destruct (Load_run fs s0 Hmu) as (s1' & out & Hrun & Hfm & _ & Har & _).
  rewrite Hload in Hrun. injection Hrun as <-.
  split; [done|]. split.
  { rewrite Har. apply insert_subseteq, not_elem_of_dom, is_fresh. }
  destruct s0 as [[x m] [reg h ar tr]]; simpl in *. subst m.
  set (a := fresh (dom ar)) in *.
  destruct (Load_loop_run fs a []
              (mkWorld reg h (<[a := replicate (length fs) None]> ar) tr))
    as (out' & w' & Hloop & _).
  { simpl. apply lookup_insert_eq. }
  simpl in Hloop. eexists. split; [apply Hloop|]. simpl.
  revert Hload. unfold Load, make_slice. unfold_M. fold a.
  rewrite Hloop. unfold Lock, Unlock. unfold_M. by intros [= <-].
Qed.

Lemma getter_inv_idle s0 fs lpc lpc' x x' pc :
  lpc ≠ L_done →
  holds pc = 0 ∨ x' = x →
  getter_inv s0 fs lpc x pc → getter_inv s0 fs lpc' x' pc.
Proof.
  intros Hl Hx. destruct pc; simpl; try done.
  - destruct Hx as [?| ->]; done.
  - destruct Hx as [?| ->]; done.
  - intros [?|[_ ?]]; [by left|done].
  - intros [?|[_ ?]]; [by left|done].
Qed.

Lemma loader_inv_set_mu s0 s1 fs pc s n :
  writer (mu (fm s)) = false →
  loader_inv s0 s1 fs pc s →
  loader_inv s0 s1 fs pc (set_mu (RWMu false n) s).
Proof.
  intros Hw. destruct pc; simpl; try done.
  all: intros (? & ? & ? & Hmu) || intros (? & ? & Hmu).
  all: rewrite Hmu in Hw; done.
Qed.

Lemma system_inv_getter_step fs s0 s1 i c c' :
  system_inv s0 s1 fs c → sched_step (Some i) c = Some c' → system_inv s0 s1 fs c'.
Proof.
  intros (Hl & Hsub & Hcnt & Hget) Hstep.
  destruct c as [s lpc gs]; simpl in *.
  destruct (gs !! i) as [pc|] eqn:Hi; simpl in Hstep; [|done].
  destruct (GetFilters_step pc s) as [[pc' s2]|] eqn:Hg; simpl in Hstep; [|done].
  injection Hstep as <-. unfold system_inv; simpl.
  pose proof (sum_list_insert holds gs i pc) as Hsum.
  pose proof (sum_list_lookup_le holds gs i pc Hi) as Hle.
  pose proof (proj1 (Forall_lookup _ _) Hget i pc Hi) as Hpc.
  destruct s as [[x [wr n]] w]. simpl in *.
  destruct pc; simpl in Hg, Hpc, Hle.
  - (* RLock *)
    unfold RLock in Hg. unfold_M_in Hg. destruct wr; [done|].
    injection Hg as <- <-. specialize (Hsum R_read_arr Hi). simpl in *.
    split; [by apply (loader_inv_set_mu _ _ _ _ (mkSt (FilterManager x (RWMu false n)) w))|].
    split; [done|]. split; [lia|]. by apply Forall_insert.
  - unfold_M_in Hg. injection Hg as <- <-.
    specialize (Hsum (R_read_len (sl_arr x)) Hi). simpl in *.
    split; [done|]. split; [done|]. split; [lia|]. by apply Forall_insert.
  - unfold_M_in Hg. injection Hg as <- <-.
    specialize (Hsum (R_read_cap a (sl_len x)) Hi). simpl in *.
    split; [done|]. split; [done|]. split; [lia|]. by apply Forall_insert.
  - unfold_M_in Hg. injection Hg as <- <-.
    specialize (Hsum (R_RUnlock (Slice a n0 (sl_cap x))) Hi). simpl in *.
    split; [done|]. split; [done|]. split; [lia|].
    apply Forall_insert; [done|]. simpl. destruct Hpc as [-> ->].
    replace (Slice (sl_arr x) (sl_len x) (sl_cap x)) with x by (by destruct x).
    destruct lpc; simpl in Hl.
    all: try (destruct Hl as (_ & _ & _ & Hmu); injection Hmu as -> ->; lia).
    all: try (destruct Hl as (_ & _ & Hmu); injection Hmu as -> ->; lia).
    + left. by destruct Hl as (_ & _ & -> & _).
    + left. by destruct Hl as (_ & _ & -> & _).
    + left. by destruct Hl as (_ & _ & -> & _).
    + right. by destruct Hl as (_ & -> & _).
  - (* RUnlock *)
    unfold RUnlock in Hg. unfold_M_in Hg. destruct n as [|n]; [done|].
    injection Hg as <- <-. specialize (Hsum (R_done r) Hi). simpl in *.
    split.
    { destruct wr.
      - destruct lpc; simpl in Hl; try (by destruct Hl as (_ & _ & _ & ?)).
        all: by destruct Hl as (_ & _ & ?).
      - by apply (loader_inv_set_mu _ _ _ _ (mkSt (FilterManager x (RWMu false (S n))) w)). }
    split; [done|]. split; [lia|]. by apply Forall_insert.
  - unfold_M_in Hg. injection Hg as <- <-.
    specialize (Hsum R_RLock Hi). simpl in *.
    split; [done|]. split; [done|]. split; [lia|]. by apply Forall_insert.
Qed.

Lemma system_inv_loader_step fs s0 s1 c c' :
  at_rest s0 →
  Load fs s0 = Some (tt, s1) →
  system_inv s0 s1 fs c → sched_step None c = Some c' → system_inv s0 s1 fs c'.
Proof.
  intros [Hmu0 Harr0] Hload (Hl & Hsub & Hcnt & Hget) Hstep.
  destruct (Load_unfold fs s0 s1 Hmu0 Hload) as (Hfm1 & Hsub1 & sB & Hloop0 & HwB).
  pose proof (is_fresh (dom (arrays (world s0)))) as Hfresh.
  apply not_elem_of_dom in Hfresh.
  destruct c as [s lpc gs]; simpl in *.
  destruct (Load_step lpc s) as [[lpc' s2]|] eqn:Hs; simpl in Hstep; [|done].
  injection Hstep as <-. unfold system_inv; simpl.
  assert (Hnd : lpc ≠ L_done) by (by intros ->).
  assert (Hidle : ∀ x',
    x' = filters (fm s) ∨ readers (mu (fm s)) = 0 →
    Forall (getter_inv s0 fs lpc' x') gs).
  { intros x' Hx'. destruct Hx' as [->|H0].
    - eapply Forall_impl; [exact Hget|]. intros pc.
      apply getter_inv_idle; [done|by right].
    - rewrite Hcnt in H0. apply sum_list_0_Forall in H0.
      rewrite Forall_forall in *. intros pc Hin.
      eapply getter_inv_idle; [done|left; by apply H0|by apply Hget]. }
  destruct s as [[x [wr n]] w]. simpl in *.
  destruct lpc as [fs'|[|f rest] tmp|tmp|tmp|tmp|tmp| |]; simpl in Hs, Hl.
  - (* make *)
    destruct Hl as (-> & -> & -> & ->).
    unfold make_slice in Hs. unfold_M_in Hs. injection Hs as <- <-. simpl.
    split; [|split; [by apply insert_subseteq|split; [done|apply Hidle; by left]]].
    split; [exists []; split; [done|apply lookup_insert_eq]|].
    split; [|done]. exists sB. by rewrite HwB.
  - (* the loop is over *)
    destruct Hl as (_ & (s' & Hrun & Hw') & -> & ->).
    unfold_M_in Hs. injection Hs as <- <-. simpl in *.
    injection Hrun as -> <-. simpl in *. subst w.
    split; [done|]. split; [done|]. split; [done|]. apply Hidle; by left.
  - (* one turn of the loop *)
    destruct Hl as ((pre & -> & Ha) & (s' & Hrun & Hw') & -> & ->).
    simpl in Ha.
    destruct (Load_body_run f _ pre (length rest) w Ha)
      as (v & w1 & Hbody & _ & Har1 & _).
    simpl in Hbody, Hrun.
    unfold mbind, M_bind in Hs. rewrite Hbody in Hs. unfold_M_in Hs.
    injection Hs as <- <-. simpl.
    unfold mbind, M_bind in Hrun. rewrite Hbody in Hrun.
    assert (Hpre : Slice (fresh (dom (arrays (world s0)))) (S (length pre))
                     (length pre + S (length rest))
                   = Slice (fresh (dom (arrays (world s0)))) (length (pre ++ [v]))
                       (length (pre ++ [v]) + length rest)).
    { rewrite length_app. simpl. f_equal; lia. }
    split; [|split; [|split; [done|apply Hidle; by left]]].
    + split; [|split; [by exists s'|done]].
      exists (pre ++ [v]). split; [done|]. rewrite Har1. apply lookup_insert_eq.
    + rewrite Har1. by apply insert_subseteq_r.
  - (* Lock *)
    destruct Hl as (-> & -> & -> & ->).
    unfold Lock in Hs. unfold_M_in Hs. destruct n; [|done].
    injection Hs as <- <-. simpl.
    split; [done|]. split; [done|]. split; [done|]. apply Hidle; by left.
  - destruct Hl as (-> & -> & -> & [= -> ->]).
    unfold_M_in Hs. injection Hs as <- <-. simpl.
    split; [done|]. split; [done|]. split; [done|]. apply Hidle; by right.
  - destruct Hl as (-> & -> & -> & [= -> ->]).
    unfold_M_in Hs. injection Hs as <- <-. simpl.
    split; [done|]. split; [done|]. split; [done|]. apply Hidle; by right.
  - destruct Hl as (-> & -> & -> & [= -> ->]).
    unfold_M_in Hs. injection Hs as <- <-. simpl.
    split; [done|]. split; [done|]. split; [done|]. apply Hidle; by right.
  - destruct Hl as (-> & -> & [= -> ->]).
    unfold Unlock in Hs. unfold_M_in Hs. injection Hs as <- <-. simpl.
    split; [done|]. split; [done|]. split; [done|]. apply Hidle; by left.
  - done.
Qed.

Lemma system_inv_run fs s0 s1 sched : ∀ c c',
  at_rest s0 →
  Load fs s0 = Some (tt, s1) →
  system_inv s0 s1 fs c → run sched c = Some c' → system_inv s0 s1 fs c'.
Proof.
  induction sched as [|t sched IH]; intros c c' Hrest Hload Hinv Hrun.
  - by injection Hrun as <-.
  - simpl in Hrun. destruct (sched_step t c) as [c1|] eqn:Hstep; [|done].
    simpl in Hrun. eapply IH; [done..| |exact Hrun].
    destruct t as [i|].
    + by eapply system_inv_getter_step.
    + by eapply system_inv_loader_step.
Qed.

Lemma system_inv_init fs s0 s1 k :
  mu (fm s0) = RWMutex_zero →
  system_inv s0 s1 fs (mkSystem s0 (L_make fs) (replicate k R_RLock)).
Proof.
  intros Hmu. unfold system_inv; simpl. rewrite Hmu. simpl.
  split; [done|]. split; [done|]. split.
  - induction k as [|k IH]; [done|]. by rewrite replicate_S, fmap_cons.
  - by apply Forall_replicate.
Qed.

Lemma run_cons t sched c :
  run (t :: sched) c = sched_step t c ≫= run sched.
Proof. done. Qed.

Lemma sched_step_body f fs tmp s gs tmp1 s1 :
  Load_body f tmp s = Some (tmp1, s1) →
  sched_step None (mkSystem s (L_loop (f :: fs) tmp) gs)
  = Some (mkSystem s1 (L_loop fs tmp1) gs).
Proof.
  intros Hbody. cbv [sched_step Load_step loader shared getters mbind M_bind].
  by rewrite Hbody.
Qed.

(** Run on its own, the goroutine of [Load] does what the method does. *)
Lemma run_Load_loop gs sched : ∀ fs tmp s x s',
  Load_loop fs tmp s = Some (x, s') →
  run (replicate (S (length fs)) None ++ sched) (mkSystem s (L_loop fs tmp) gs)
  = run sched (mkSystem s' (L_Lock x) gs).
Proof.
  induction fs as [|f fs IH]; intros tmp s x s' Hloop.
  - by injection Hloop as <- <-.
  - simpl in Hloop. unfold mbind, M_bind in Hloop.
    destruct (Load_body f tmp s) as [[tmp1 s1]|] eqn:Hbody; [|done].
    change (replicate (S (length (f :: fs))) None ++ sched)
      with (None :: replicate (S (length fs)) None ++ sched).
    rewrite run_cons, (sched_step_body _ _ _ _ _ _ _ Hbody). by apply IH.
Qed.

Lemma run_loader_alone fs s0 :
  mu (fm s0) = RWMutex_zero →
  ∃ s1,
    Load fs s0 = Some (tt, s1)
    ∧ run (None :: replicate (S (length fs)) None ++ replicate 5 None)
        (mkSystem s0 (L_make fs) [])
      = Some (mkSystem s1 L_done []).
Proof.
  intros Hmu.
  destruct (Load_run fs s0 Hmu) as (s1 & out & Hload & _).
  exists s1. split; [done|].
  destruct s0 as [[x m] [reg h ar tr]]; simpl in Hmu. subst m.
  rewrite run_cons.
  unfold Load, make_slice in Hload. unfold_M_in Hload.
  set (tmp := Slice _ _ _) in Hload. set (sA := mkSt _ _) in Hload.
  assert (Hmake :
    sched_step None
      (mkSystem (mkSt (FilterManager x RWMutex_zero) (mkWorld reg h ar tr))
         (L_make fs) [])
    = Some (mkSystem sA (L_loop fs tmp) [])) by done.
  rewrite Hmake. change (Some ?c ≫= ?g) with (g c).
  destruct (Load_loop fs tmp sA) as [[y [[x' [wr n]] w']]|] eqn:Hloop; [|done].
  rewrite (run_Load_loop _ _ _ _ _ _ _ Hloop).
  unfold Lock, Unlock in Hload. unfold_M_in Hload.
  destruct wr, n; try done. injection Hload as <-.
  simpl. unfold Lock, Unlock. unfold_M. by destruct y.
Qed.

(** ** The claims *)

(** C9. A manager fresh from [NewFilterManager] has an empty chain:
    [GetFilters] returns, and the sequence it returns has no element. *)
Theorem NewFilterManager_chain_empty w :
  ∃ r s',
    GetFilters (mkSt (NewFilterManager w).1 (NewFilterManager w).2) = Some (r, s')
    ∧ elems (world s') r = [].
Proof.
  eexists _, _. split; [by apply GetFilters_run|].
  unfold elems; simpl. by rewrite lookup_insert_eq.
Qed.

(** C8. [Load] of the empty descriptor list returns, and [GetFilters]
    then returns the empty sequence. *)
Theorem Load_nil_chain_empty s :
  mu (fm s) = RWMutex_zero →
  ∃ s1 r s2,
    Load [] s = Some (tt, s1)
    ∧ GetFilters s1 = Some (r, s2)
    ∧ elems (world s2) r = [].
Proof.
  intros Hmu.
  destruct (Load_run [] s Hmu) as (s1 & out & Hrun & Hfm & _ & Har & _ & Hall & _).
  exists s1, (filters (fm s1)), s1. split; [done|].
  split; [apply GetFilters_run; by rewrite Hfm|].
  rewrite Hfm. simpl. unfold elems. simpl. by rewrite take_0.
Qed.

(** C10. A chain published by [Load] has exactly one entry per descriptor:
    the entry of a descriptor whose build succeeds is an instance, the
    entry of one whose build fails is nil, and none is left out. *)
Theorem Load_chain_length fs s :
  mu (fm s) = RWMutex_zero →
  ∃ s1 r s2,
    Load fs s = Some (tt, s1)
    ∧ GetFilters s1 = Some (r, s2)
    ∧ length (elems (world s2) r) = length fs
    ∧ Forall2 (λ f e, if succeeds (registry (world s)) f then is_Some e else e = None)
        fs (elems (world s2) r).
Proof.
  intros Hmu.
  destruct (Load_run fs s Hmu) as (s1 & out & Hrun & Hfm & _ & Har & _ & Hall & _).
  exists s1, (filters (fm s1)), s1. split; [done|].
  split; [apply GetFilters_run; by rewrite Hfm|].
  assert (Hlen : length out = length fs) by (symmetry; by eapply Forall2_length).
  rewrite Hfm. simpl.
  rewrite (elems_insert_full _ _ out) by (by rewrite ?Har, ?lookup_insert_eq).
  split; [done|]. by eapply chain_entry_nil.
Qed.

(** C3. After [Load], the instances in the chain [GetFilters] returns are,
    in order, those of the descriptors whose build succeeds, in the order
    of the descriptor list: one instance each, in the state the build
    specifies, and pairwise distinct. *)
Theorem Load_chain_order fs s :
  mu (fm s) = RWMutex_zero →
  ∃ s1 r s2,
    Load fs s = Some (tt, s1)
    ∧ GetFilters s1 = Some (r, s2)
    ∧ Forall2 (λ f l, ∃ o, build (registry (world s)) (Name f) (Config f) = inl o
                           ∧ objs (world s2) !! l = Some o)
        (filter (λ f, succeeds (registry (world s)) f) fs)
        (omap id (elems (world s2) r))
    ∧ NoDup (omap id (elems (world s2) r)).
Proof.
  intros Hmu.
  destruct (Load_run fs s Hmu)
    as (s1 & out & Hrun & Hfm & _ & Har & _ & Hall & _ & Hnd).
  exists s1, (filters (fm s1)), s1. split; [done|].
  split; [apply GetFilters_run; by rewrite Hfm|].
  assert (Hlen : length out = length fs) by (symmetry; by eapply Forall2_length).
  rewrite Hfm. simpl.
  rewrite (elems_insert_full _ _ out) by (by rewrite ?Har, ?lookup_insert_eq).
  split; [|done]. by apply chain_entry_restrict.
Qed.

(** C4. [Apply] returns the ready instance exactly when resolution,
    instantiation, binding and initialisation all succeed; otherwise it
    returns nil with the error of the first of them to fail, in that
    order, having made the calls of the steps up to that one and no call
    of a later step. *)
Theorem Apply_first_failing_step name conf s :
  ∃ res s',
    Apply name conf s = Some (res, s')
    ∧ match build (registry (world s)) name conf with
      | inl o =>
          res = (Some (fresh (dom (objs (world s)))), None)
          ∧ objs (world s') !! fresh (dom (objs (world s))) = Some o
          ∧ trace (world s')
            = trace (world s)
              ++ build_calls name conf (fresh (dom (objs (world s))))
      | inr (st, e) =>
          res = (None, Some e)
          ∧ trace (world s')
            = trace (world s)
              ++ take (calls_upto st)
                   (build_calls name conf (fresh (dom (objs (world s)))))
      end.
Proof.
  eexists _, _. split; [apply Apply_run|]. simpl.
  unfold Apply_result, Apply_calls, Apply_objs.
  destruct (build (registry (world s)) name conf) as [o|[st e]] eqn:Hb; [|done].
  rewrite (build_object_ready _ _ _ _ Hb). by rewrite lookup_insert_eq.
Qed.

(** C5. Under a name with no factory in the registry, [Apply] returns no
    instance and the PluginNotFound error, whatever the options; all it
    has done is the lookup. *)
Theorem Apply_unknown_name name conf s :
  registry (world s) !! name = None →
  Apply name conf s
  = Some ((None, Some PluginNotFound), emit (GetHttpFilterPlugin_call name) s).
Proof.
  intros Hreg. rewrite Apply_run. simpl.
  unfold Apply_result, Apply_objs, Apply_calls, build, build_object, emit.
  by rewrite Hreg.
Qed.

(** C7. [Apply] returns, and leaves the manager struct, the registry,
    every array (so the active chain) and every object that was on the
    heap before the call as they were; the heap gains at most the one
    object of the build, at a fresh address. *)
Theorem Apply_frame name conf s :
  ∃ res s',
    Apply name conf s = Some (res, s')
    ∧ fm s' = fm s
    ∧ registry (world s') = registry (world s)
    ∧ elems (world s') (filters (fm s')) = elems (world s) (filters (fm s))
    ∧ arrays (world s') = arrays (world s)
    ∧ objs (world s) ⊆ objs (world s')
    ∧ dom (objs (world s'))
      ⊆ dom (objs (world s)) ∪ {[fresh (dom (objs (world s)))]}.
Proof.
  eexists _, _. split; [apply Apply_run|]. simpl.
  repeat split; try done; [apply Apply_objs_mono|].
  unfold Apply_objs. destruct (build_object _ _ _).
  - rewrite dom_insert_L, (comm_L (∪)). done.
  - apply union_subseteq_l.
Qed.

(** C6. A chain handed out by [GetFilters] reads the same, element for
    element, after any sequence of reloads; the objects it points to are
    as they were; and a reload leaves the manager with a chain in another
    array than the one handed out. *)
Theorem published_chain_stable fss s :
  at_rest s →
  ∃ r s1 s2,
    GetFilters s = Some (r, s1)
    ∧ Loads fss s1 = Some (tt, s2)
    ∧ elems (world s2) r = elems (world s1) r
    ∧ objs (world s1) ⊆ objs (world s2)
    ∧ (fss = [] ∨ sl_arr (filters (fm s2)) ≠ sl_arr r).
Proof.
  intros [Hmu Harr].
  destruct (Loads_run fss s Hmu) as (s2 & Hrun & _ & _ & Har & Hobjs & Hnew).
  exists (filters (fm s)), s, s2.
  split; [apply GetFilters_run; by rewrite Hmu|].
  split; [done|]. split; [by apply elems_mono|]. split; [done|].
  destruct Hnew as [?|Hnew]; [by left|right].
  intros Heq. apply Hnew. rewrite Heq. by apply elem_of_dom.
Qed.

(** C2. While one [Load fs] runs against any number of goroutines calling
    [GetFilters], under every schedule: each call that has returned has
    got the header the manager had before or the header [Load] publishes,
    and reads through it the whole chain of before or the whole new
    chain; the write lock is held exactly from [Lock] to [Unlock], around
    the assignment of [fm.filters], and whenever it is held the build is
    over. *)
Theorem Load_atomic_for_readers fs s0 k sched c :
  at_rest s0 →
  run sched (mkSystem s0 (L_make fs) (replicate k R_RLock)) = Some c →
  ∃ s1,
    Load fs s0 = Some (tt, s1)
    ∧ Forall (old_or_new s0 s1 (world (shared c))) (getters c)
    ∧ writer (mu (fm (shared c))) = in_critical (loader c)
    ∧ (if writer (mu (fm (shared c))) then world (shared c) = world s1 else True).
Proof.
  intros Hrest Hrun. pose proof Hrest as [Hmu Harr].
  destruct (Load_run fs s0 Hmu) as (s1 & out & Hload & _).
  exists s1. split; [done|].
  destruct (Load_unfold fs s0 s1 Hmu Hload) as (Hfm1 & _).
  pose proof (system_inv_run fs s0 s1 sched _ _ Hrest Hload
                (system_inv_init fs s0 s1 k Hmu) Hrun)
    as (Hl & Hsub & _ & Hget).
  split.
  { eapply Forall_impl; [exact Hget|]. intros pc Hpc.
    destruct pc; simpl in *; try done.
    destruct Hpc as [->|[-> Hdone]].
    - left. split; [done|]. by apply elems_mono.
    - right. rewrite Hdone in Hl. destruct Hl as (-> & _).
      by rewrite Hfm1. }
  destruct (loader c); simpl in Hl |- *.
  - destruct Hl as (_ & _ & _ & ->). done.
  - destruct Hl as (_ & _ & _ & ->). done.
  - destruct Hl as (_ & _ & _ & ->). done.
  - destruct Hl as (_ & ? & _ & ->). done.
  - destruct Hl as (_ & ? & _ & ->). done.
  - destruct Hl as (_ & ? & _ & ->). done.
  - destruct Hl as (? & _ & ->). done.
  - destruct Hl as (_ & _ & ->). done.
Qed.

(** ** More on builds and reloads *)

Lemma logged_app (tr1 tr2 : list Event) :
  logged (tr1 ++ tr2) = logged tr1 ++ logged tr2.
Proof. apply omap_app. Qed.

Lemma logged_Apply_calls reg name conf l :
  logged (Apply_calls reg name conf l) = [].
Proof.
  unfold Apply_calls. destruct (build reg name conf) as [o|[[] e]]; done.
Qed.

Lemma Load_body_logged f tmp s x s' :
  Load_body f tmp s = Some (x, s') →
  registry (world s') = registry (world s)
  ∧ logged (trace (world s'))
    = logged (trace (world s))
      ++ failures (registry (world s)) [f].
Proof.
  unfold Load_body. unfold mbind at 1, M_bind at 1. rewrite Apply_run.
  destruct s as [m [reg h ar tr]]; simpl.
  unfold failures, Apply_result. simpl.
  pose proof (logged_Apply_calls reg (Name f) (Config f) (fresh (dom h))) as Hc.
  destruct (build reg (Name f) (Config f)) as [o|[st e]]; simpl.
  all: unfold append; destruct (decide _); unfold_M; intros [= <- <-]; simpl.
  all: rewrite ?logged_app, Hc; simpl; by rewrite ?app_nil_r.
Qed.

Lemma Load_loop_logged fs : ∀ tmp s x s',
  Load_loop fs tmp s = Some (x, s') →
  registry (world s') = registry (world s)
  ∧ logged (trace (world s'))
    = logged (trace (world s)) ++ failures (registry (world s)) fs.
Proof.
  induction fs as [|f fs IH]; intros tmp s x s' Hrun; simpl in Hrun.
  - injection Hrun as <- <-. by rewrite app_nil_r.
  - unfold mbind, M_bind in Hrun.
    destruct (Load_body f tmp s) as [[tmp1 s1]|] eqn:Hbody; [|done].
    destruct (Load_body_logged _ _ _ _ _ Hbody) as [Hreg1 Hlog1].
    destruct (IH _ _ _ _ Hrun) as [Hreg Hlog].
    split; [congruence|].
    rewrite Hlog, Hlog1, Hreg1, <- (assoc_L (++)). f_equal.
    unfold failures. simpl.
    by destruct (build (registry (world s)) (Name f) (Config f)) as [?|[? ?]].
Qed.

(** X1. [Load] hands to the logger the error of every descriptor whose
    build fails, once each and in the order of the list, and logs nothing
    else. *)
Theorem Load_logs_failures fs s :
  mu (fm s) = RWMutex_zero →
  ∃ s',
    Load fs s = Some (tt, s')
    ∧ logged (trace (world s'))
      = logged (trace (world s)) ++ failures (registry (world s)) fs.
Proof.
  intros Hmu. destruct (Load_run fs s Hmu) as (s' & out & Hload & _).
  exists s'. split; [done|].
  destruct s as [[x m] [reg h ar tr]]; simpl in *. subst m.
  unfold Load, make_slice in Hload. unfold_M_in Hload.
  destruct (Load_loop fs _ _) as [[y [[x' [wr n]] w']]|] eqn:Hloop; [|done].
  apply Load_loop_logged in Hloop as [_ Hlog]. simpl in Hlog.
  unfold Lock, Unlock in Hload. unfold_M_in Hload.
  destruct wr, n; try done. by injection Hload as <-.
Qed.

(** X3. After any number of reloads, the chain is that of the last one
    alone: one entry per descriptor of the last list, an instance in the
    state its build specifies or nil, read off the registry the manager
    started with. *)
Theorem last_Load_wins fss fs s :
  mu (fm s) = RWMutex_zero →
  ∃ s1 s2 r s3,
    Loads fss s = Some (tt, s1)
    ∧ Load fs s1 = Some (tt, s2)
    ∧ GetFilters s2 = Some (r, s3)
    ∧ registry (world s3) = registry (world s)
    ∧ Forall2 (chain_entry (registry (world s)) (objs (world s3)))
        fs (elems (world s3) r).
Proof.
  intros Hmu.
  destruct (Loads_run fss s Hmu) as (s1 & Hrun1 & Hmu1 & Hreg1 & _).
  destruct (Load_run fs s1 Hmu1)
    as (s2 & out & Hrun2 & Hfm & Hreg2 & Har & _ & Hall & _).
  exists s1, s2, (filters (fm s2)), s2. split; [done|]. split; [done|].
  split; [apply GetFilters_run; by rewrite Hfm|].
  split; [congruence|].
  assert (Hlen : length out = length fs) by (symmetry; by eapply Forall2_length).
  rewrite Hfm. simpl.
  rewrite (elems_insert_full _ _ out) by (by rewrite ?Har, ?lookup_insert_eq).
  by rewrite <- Hreg1.
Qed.

(** ** No deadlock *)

Lemma run_app sched1 : ∀ sched2 c,
  run (sched1 ++ sched2) c = run sched1 c ≫= run sched2.
Proof.
  induction sched1 as [|t sched1 IH]; intros sched2 c; [done|].
  simpl. destruct (sched_step t c) as [c1|]; simpl; [apply IH|done].
Qed.

Lemma sum_list_pos_lookup {A} (g : A → nat) (l : list A) :
  0 < sum_list (g <$> l) → ∃ i y, l !! i = Some y ∧ 0 < g y.
Proof.
  induction l as [|b l IH]; csimpl; [lia|]. intros Hs.
  destruct (decide (0 < g b)).
  - by exists 0, b.
  - destruct IH as (i & y & Hi & Hy); [lia|]. by exists (S i), y.
Qed.

(** A caller of [GetFilters] that is inside the read lock can always take
    its next step, and is then nearer to leaving. *)
Lemma getter_progress fs s0 s1 c i pc :
  system_inv s0 s1 fs c →
  getters c !! i = Some pc →
  0 < getter_dist pc →
  ∃ c', sched_step (Some i) c = Some c' ∧ system_dist c' < system_dist c.
Proof.
  intros (_ & _ & Hcnt & _) Hi Hd.
  pose proof (sum_list_lookup_le holds _ _ _ Hi) as Hle.
  destruct c as [[[x [wr n]] w] lpc gs]; simpl in *.
  unfold sched_step, system_dist; simpl. rewrite Hi. simpl.
  destruct pc; simpl in Hd, Hle; try lia.
  - pose proof (sum_list_insert getter_dist gs i _ (R_read_len (sl_arr x)) Hi).
    eexists; split; [reflexivity|]. simpl in *. lia.
  - pose proof (sum_list_insert getter_dist gs i _ (R_read_cap a (sl_len x)) Hi).
    eexists; split; [reflexivity|]. simpl in *. lia.
  - pose proof (sum_list_insert getter_dist gs i _
                  (R_RUnlock (Slice a n0 (sl_cap x))) Hi).
    eexists; split; [reflexivity|]. simpl in *. lia.
  - unfold RUnlock, mbind, M_bind, get, modify; simpl.
    destruct n as [|n]; [lia|]. simpl.
    pose proof (sum_list_insert getter_dist gs i _ (R_done r) Hi).
    eexists; split; [reflexivity|]. simpl in *. lia.
Qed.

(** With no caller inside the read lock, the goroutine of [Load] can
    always take its next step. *)
Lemma loader_progress fs s0 s1 c :
  system_inv s0 s1 fs c →
  sum_list (holds <$> getters c) = 0 →
  loader c ≠ L_done →
  ∃ c', sched_step None c = Some c' ∧ system_dist c' < system_dist c.
Proof.
  intros (Hl & _ & Hcnt & _) H0 Hnd. rewrite H0 in Hcnt.
  destruct c as [[[x [wr n]] w] lpc gs]; simpl in *. subst n.
  unfold sched_step, system_dist; simpl.
  destruct lpc as [fs'|[|f rest] tmp|tmp|tmp|tmp|tmp| |]; simpl in Hl |- *;
    try done.
  - eexists; split; [reflexivity|]. simpl. lia.
  - eexists; split; [reflexivity|]. simpl. lia.
  - destruct Hl as ((pre & -> & Ha) & _). simpl in Ha.
    destruct (Load_body_run f _ pre (length rest) w Ha) as (v & w1 & Hbody & _).
    unfold mbind at 2, M_bind. rewrite Hbody. simpl.
    eexists; split; [reflexivity|]. simpl. lia.
  - destruct Hl as (_ & _ & _ & ->).
    eexists; split; [reflexivity|]. simpl. lia.
  - eexists; split; [reflexivity|]. simpl. lia.
  - eexists; split; [reflexivity|]. simpl. lia.
  - eexists; split; [reflexivity|]. simpl. lia.
  - destruct Hl as (_ & _ & [= ->]).
    eexists; split; [reflexivity|]. simpl. lia.
Qed.

Lemma holds_dist (gs : list ReadPc) :
  sum_list (holds <$> gs) = 0 ↔ sum_list (getter_dist <$> gs) = 0.
Proof.
  induction gs as [|pc gs IH]; csimpl; [done|].
  destruct pc; simpl; lia.
Qed.

Lemma system_can_finish fs s0 s1 :
  at_rest s0 →
  Load fs s0 = Some (tt, s1) →
  ∀ n c,
    system_dist c ≤ n →
    system_inv s0 s1 fs c →
    ∃ sched c',
      run sched c = Some c'
      ∧ system_inv s0 s1 fs c'
      ∧ loader c' = L_done
      ∧ sum_list (holds <$> getters c') = 0.
Proof.
  intros Hrest Hload. induction n as [|n IH]; intros c Hn Hinv.
  - exists [], c. unfold system_dist in Hn.
    split; [done|]. split; [done|]. split.
    + destruct (loader c); simpl in Hn; try lia. done.
    + apply holds_dist. lia.
  - destruct (decide (0 < sum_list (getter_dist <$> getters c))) as [Hg|Hg].
    + apply sum_list_pos_lookup in Hg as (i & pc & Hi & Hd).
      destruct (getter_progress _ _ _ _ _ _ Hinv Hi Hd) as (c1 & Hstep & Hlt).
      destruct (IH c1) as (sched & c' & Hrun & Hc').
      { lia. }
      { by eapply system_inv_getter_step. }
      exists (Some i :: sched), c'. split; [|done].
      by rewrite run_cons, Hstep.
    + assert (loader c = L_done ∨ loader c ≠ L_done) as [Hdone|Hnd]
        by (destruct (loader c); first [by left | by right]).
      { exists [], c. split; [done|]. split; [done|]. split; [done|].
        apply holds_dist. lia. }
      destruct (loader_progress _ _ _ _ Hinv) as (c1 & Hstep & Hlt);
        [apply holds_dist; lia|done|].
      destruct (IH c1) as (sched & c' & Hrun & Hc').
      { lia. }
      { by eapply system_inv_loader_step. }
      exists (None :: sched), c'. split; [|done].
      by rewrite run_cons, Hstep.
Qed.

(** X4. No deadlock: from every state that one [Load] and any number
    of callers of [GetFilters] can reach, some schedule lets the reload
    finish and every caller leave the lock; the mutex is then free and
    the manager holds the chain [Load] publishes. *)
Theorem Load_can_always_finish fs s0 k sched c :
  at_rest s0 →
  run sched (mkSystem s0 (L_make fs) (replicate k R_RLock)) = Some c →
  ∃ sched' c' s1,
    run (sched ++ sched') (mkSystem s0 (L_make fs) (replicate k R_RLock))
    = Some c'
    ∧ Load fs s0 = Some (tt, s1)
    ∧ loader c' = L_done
    ∧ fm (shared c') = fm s1
    ∧ world (shared c') = world s1.
Proof.
  intros Hrest Hrun. pose proof Hrest as [Hmu _].
  destruct (Load_run fs s0 Hmu) as (s1 & out & Hload & _).
  destruct (Load_unfold fs s0 s1 Hmu Hload) as (Hfm1 & _).
  pose proof (system_inv_run fs s0 s1 sched _ _ Hrest Hload
                (system_inv_init fs s0 s1 k Hmu) Hrun) as Hinv.
  destruct (system_can_finish fs s0 s1 Hrest Hload _ c (le_n _) Hinv)
    as (sched' & c' & Hrun' & (Hl & _ & Hcnt & _) & Hdone & H0).
  exists sched', c', s1. rewrite run_app, Hrun. simpl.
  split; [done|]. split; [done|]. split; [done|].
  rewrite Hdone in Hl. destruct Hl as (Hw & Hf & Hwr).
  split; [|done]. rewrite Hfm1. rewrite H0 in Hcnt.
  destruct (fm (shared c')) as [x [wr n]]; simpl in *. by subst.
Qed.

End Properties.

(** * The sample deployment at work *)

(** C1 fails on the code: the loop of [Load] logs the error of a failed
    build and then appends the nil result all the same. With the second
    descriptor naming a plugin that is not registered, the chain that
    [Load] publishes and [GetFilters] returns has nil as its second entry. *)
Example Load_publishes_nil :
  ∃ s1 r s2,
    Load sample_filters sample_St = Some (tt, s1)
    ∧ GetFilters s1 = Some (r, s2)
    ∧ elems (world s2) r = [Some 1%positive; None; Some 2%positive]
    ∧ elems (world s2) r !! 1 = Some None.
Proof. eexists _, _, _. vm_compute. done. Qed.

(** The five ways a build can end, on the sample registry. *)
Example Apply_ready :
  fst <$> Apply "timeout" [("timeout", Some 3)] sample_St
  = Some (Some 1%positive, None).
Proof. reflexivity. Qed.

Example Apply_plugin_not_found :
  fst <$> Apply "missing" [] sample_St = Some (None, Some PluginNotFound).
Proof. reflexivity. Qed.

Example Apply_instantiation_error :
  fst <$> Apply "broken" [] sample_St = Some (None, Some InstantiationError).
Proof. reflexivity. Qed.

Example Apply_config_bind_error :
  fst <$> Apply "timeout" [("timeout", None)] sample_St
  = Some (None, Some (ConfigBindError (errors_New "cannot unmarshal"))).
Proof. reflexivity. Qed.

Example Apply_init_error :
  fst <$> Apply "timeout" [("timeout", Some 0)] sample_St
  = Some (None, Some (InitError (errors_New "timeout must be positive"))).
Proof. reflexivity. Qed.

(** The reload of the sample against two readers: the first gets the
    chain of before, the second the new one. *)
Example sample_run_getters :
  getters <$> run sample_sched sample_System
  = Some [R_done (Slice 1 0 16); R_done (Slice 2 3 3)].
Proof. vm_compute. reflexivity. Qed.

(** A reader cannot start while the reload holds the write lock, and the
    reload cannot take it while a reader is inside. *)
Example sample_reader_blocked :
  run (replicate 6 None ++ [Some 0]) sample_System = None.
Proof. vm_compute. reflexivity. Qed.

Example sample_loader_blocked :
  run (Some 0 :: replicate 6 None) sample_System = None.
Proof. vm_compute. reflexivity. Qed.

(** ** Instances of the claims that carry a premise *)

Lemma sample_at_rest : at_rest sample_St.
Proof. split; [reflexivity|]. by exists (replicate 16 None). Defined.

Lemma Load_nil_chain_empty_witness :
  mu (fm sample_St) = RWMutex_zero
  ∧ ∃ s1 r s2,
      Load [] sample_St = Some (tt, s1)
      ∧ GetFilters s1 = Some (r, s2)
      ∧ elems (world s2) r = [].
Proof. split; [reflexivity|]. apply Load_nil_chain_empty. reflexivity. Defined.

Lemma Load_chain_length_witness :
  mu (fm sample_St) = RWMutex_zero
  ∧ ∃ s1 r s2,
      Load sample_filters sample_St = Some (tt, s1)
      ∧ GetFilters s1 = Some (r, s2)
      ∧ length (elems (world s2) r) = 3
      ∧ Forall2 (λ f e, if succeeds sample_registry f then is_Some e else e = None)
          sample_filters (elems (world s2) r).
Proof.
  split; [reflexivity|].
  apply (Load_chain_length sample_filters sample_St). reflexivity.
Defined.

Lemma Load_chain_order_witness :
  mu (fm sample_St) = RWMutex_zero
  ∧ ∃ s1 r s2,
      Load sample_filters sample_St = Some (tt, s1)
      ∧ GetFilters s1 = Some (r, s2)
      ∧ Forall2 (λ f l, ∃ o, build sample_registry (Name f) (Config f) = inl o
                             ∧ objs (world s2) !! l = Some o)
          (filter (λ f, succeeds sample_registry f) sample_filters)
          (omap id (elems (world s2) r))
      ∧ NoDup (omap id (elems (world s2) r)).
Proof.
  split; [reflexivity|].
  apply (Load_chain_order sample_filters sample_St). reflexivity.
Defined.

Lemma Apply_unknown_name_witness :
  registry (world sample_St) !! "missing" = None
  ∧ Apply "missing" [("timeout", Some 3)] sample_St
    = Some ((None, Some PluginNotFound),
            emit (GetHttpFilterPlugin_call "missing") sample_St).
Proof. split; [reflexivity|]. apply Apply_unknown_name. reflexivity. Defined.

Lemma sample_loaded_at_rest : at_rest sample_loaded_St.
Proof.
  split; [vm_compute; reflexivity|].
  exists [Some 1%positive; None; Some 2%positive]. vm_compute. reflexivity.
Defined.

(** The chain handed out has three entries, an instance, nil and another
    instance, and reads the same after two further reloads, the first of
    which builds two new instances. *)
Lemma published_chain_stable_witness :
  at_rest sample_loaded_St
  ∧ ∃ r s1 s2,
      GetFilters sample_loaded_St = Some (r, s1)
      ∧ elems (world s1) r = [Some 1%positive; None; Some 2%positive]
      ∧ Loads [sample_filters; []] s1 = Some (tt, s2)
      ∧ elems (world s2) r = [Some 1%positive; None; Some 2%positive]
      ∧ elems (world s2) r = elems (world s1) r
      ∧ objs (world s1) ⊆ objs (world s2)
      ∧ sl_arr (filters (fm s2)) ≠ sl_arr r.
Proof.
  split; [exact sample_loaded_at_rest|].
  destruct (published_chain_stable [sample_filters; []] sample_loaded_St
              sample_loaded_at_rest)
    as (r & s1 & s2 & Hget & Hloads & Helems & Hobjs & Hnew).
  assert (Hr : r = Slice 2 3 3 ∧ s1 = sample_loaded_St).
  { vm_compute in Hget. injection Hget as <- <-.
    split; vm_compute; reflexivity. }
  destruct Hr as [-> ->].
  assert (He1 : elems (world sample_loaded_St) (Slice 2 3 3)
                = [Some 1%positive; None; Some 2%positive])
    by (vm_compute; reflexivity).
  exists (Slice 2 3 3), sample_loaded_St, s2.
  split; [vm_compute; reflexivity|]. split; [exact He1|]. split; [exact Hloads|].
  split; [by rewrite Helems|]. split; [exact Helems|]. split; [exact Hobjs|].
  destruct Hnew as [Hnil|Hne]; [discriminate Hnil|exact Hne].
Defined.

Lemma Load_atomic_for_readers_witness :
  at_rest sample_St
  ∧ ∃ c,
      run sample_sched sample_System = Some c
      ∧ getters c = [R_done (Slice 1 0 16); R_done (Slice 2 3 3)]
      ∧ ∃ s1,
          Load sample_filters sample_St = Some (tt, s1)
          ∧ Forall (old_or_new sample_St s1 (world (shared c))) (getters c)
          ∧ writer (mu (fm (shared c))) = in_critical (loader c)
          ∧ (if writer (mu (fm (shared c)))
             then world (shared c) = world s1 else True).
Proof.
  split; [exact sample_at_rest|].
  eexists. split; [vm_compute; reflexivity|]. split; [reflexivity|].
  apply (Load_atomic_for_readers sample_filters sample_St 2 sample_sched).
  - exact sample_at_rest.
  - vm_compute. reflexivity.
Defined.

(** ** Instances of the further properties *)

Lemma Load_logs_failures_witness :
  ∃ s',
    Load sample_filters sample_St = Some (tt, s')
    ∧ logged (trace (world s')) = [PluginNotFound].
Proof. apply (Load_logs_failures sample_filters sample_St). reflexivity. Defined.

Lemma last_Load_wins_witness :
  ∃ s1 s2 r s3,
    Loads [sample_filters; []] sample_St = Some (tt, s1)
    ∧ Load sample_filters s1 = Some (tt, s2)
    ∧ GetFilters s2 = Some (r, s3)
    ∧ registry (world s3) = sample_registry
    ∧ Forall2 (chain_entry sample_registry (objs (world s3)))
        sample_filters (elems (world s3) r).
Proof.
  apply (last_Load_wins [sample_filters; []] sample_filters sample_St).
  reflexivity.
Defined.

Lemma Load_can_always_finish_witness :
  ∃ sched' c' s1,
    run ([Some 0; None; None] ++ sched') sample_System = Some c'
    ∧ Load sample_filters sample_St = Some (tt, s1)
    ∧ loader c' = L_done
    ∧ fm (shared c') = fm s1
    ∧ world (shared c') = world s1.
Proof.
  eapply (Load_can_always_finish sample_filters sample_St 2 [Some 0; None; None]).
  - exact sample_at_rest.
  - vm_compute. reflexivity.
Defined.

(** * The student cache *)

Module student_props.
Import student.

Implicit Types (s : St) (db : StudentDB) (v : Student) (p q : loc) (u : ptr).

Ltac run_M :=
  unfold mbind, M_bind, mret, M_ret, get, put, panic, emit, set_lock,
    set_nameIndex, set_codeIndex; simpl.

Lemma length_0_empty (x : string) : String.length x = 0 ↔ x = EmptyString.
Proof. destruct x; simpl; split; intros; done. Qed.

Lemma GetByName_run s n :
  lock (studentCache s) = false →
  GetByName n s
  = Some ((nameIndex (studentCache s) !! n,
           bool_decide (is_Some (nameIndex (studentCache s) !! n))), s).
Proof.
  destruct s as [[ni ci l] h ev]; simpl. intros ->.
  unfold GetByName, Lock, Unlock. by run_M.
Qed.

Lemma GetByCode_run s c :
  lock (studentCache s) = false →
  GetByCode c s
  = Some ((codeIndex (studentCache s) !! c,
           bool_decide (is_Some (codeIndex (studentCache s) !! c))), s).
Proof.
  destruct s as [[ni ci l] h ev]; simpl. intros ->.
  unfold GetByCode, Lock, Unlock. by run_M.
Qed.

(** [Add] on an allocated student: the outcome and the state after. *)
Lemma Add_run s p v :
  lock (studentCache s) = false →
  heap s !! p = Some v →
  Add (Some p) s
  = Some (can_add (studentCache s) v,
          if can_add (studentCache s) v
          then mkSt (filed (studentCache s) p v) (heap s) (events s)
          else s).
Proof.
  destruct s as [[ni ci l] h ev]; simpl. intros -> Hp.
  unfold Add, can_add, filed, Lock, Unlock, existName, existCode,
    AddForName, AddForCode, deref.
  run_M. rewrite Hp. simpl.
  destruct (decide (Name v = EmptyString ∨ (Code v ≤ 0)%Z)) as [Hbad|Hok]; simpl.
  { rewrite bool_decide_eq_false_2; [done|]. intros (? & ? & _). destruct Hbad; [done|lia]. }
  assert (Hn : Name v ≠ EmptyString) by tauto.
  assert (Hc : (0 < Code v)%Z) by (destruct (decide (0 < Code v)%Z); [done|]; exfalso; apply Hok; right; lia).
  assert (Hlen : ¬ String.length (Name v) ≤ 0).
  { intros Hl. apply Hn, length_0_empty. lia. }
  destruct (decide (String.length (Name v) ≤ 0)); [done|]. simpl.
  destruct (ni !! Name v) as [p'|] eqn:Hni; simpl.
  { rewrite bool_decide_eq_false_2; [done|]. by intros (_ & _ & ? & _). }
  destruct (decide (Code v ≤ 0)%Z); [lia|]. simpl.
  destruct (ci !! Code v) as [p'|] eqn:Hci; simpl.
  { rewrite bool_decide_eq_false_2; [done|]. by intros (_ & _ & _ & ?). }
  repeat first [rewrite Hp | rewrite Hni | rewrite Hci | progress simpl
               | case_decide; [lia|]].
  by rewrite bool_decide_eq_true_2.
Qed.

Lemma copy_ID_Age_run s p q old new :
  heap s !! p = Some old →
  heap s !! q = Some new →
  copy_ID_Age (Some p) (Some q) s
  = Some (tt, mkSt (studentCache s) (<[p := updated old new]> (heap s)) (events s)).
Proof.
  destruct s as [db h ev]; simpl. intros Hp Hq.
  assert (Hnew : p = q → new = old) by (intros ->; congruence).
  unfold copy_ID_Age, updated, store_ID, store_Age, deref. run_M.
  rewrite Hq. simpl.
  destruct (decide (String.length (ID new) ≠ 0)) as [Hid|Hid]; simpl.
  - rewrite Hp. simpl. destruct (decide (p = q)) as [<-|Hne].
    + rewrite (Hnew eq_refl) in *. rewrite lookup_insert_eq. simpl.
      destruct (decide (0 ≤ Age old)%Z); simpl.
      * rewrite lookup_insert_eq. simpl. by rewrite insert_insert_eq.
      * done.
    + rewrite lookup_insert_ne, Hq by done. simpl.
      destruct (decide (0 ≤ Age new)%Z); simpl.
      * rewrite lookup_insert_eq. simpl. by rewrite insert_insert_eq.
      * done.
  - rewrite Hq. simpl.
    destruct (decide (0 ≤ Age new)%Z); simpl.
    + by rewrite Hp.
    + rewrite insert_id; [done|]. by destruct old.
Qed.

Lemma updated_Name old new : Name (updated old new) = Name old.
Proof. done. Qed.

Lemma updated_Code old new : Code (updated old new) = Code old.
Proof. done. Qed.

(** Overwriting a student by one of the same name and code keeps the
    cache consistent. *)
Lemma consistent_update s p old v' :
  consistent s →
  heap s !! p = Some old →
  Name v' = Name old → Code v' = Code old →
  consistent (mkSt (studentCache s) (<[p := v']> (heap s)) (events s)).
Proof.
  intros (Hl & Hn & Hc) Hp HN HC. split; [done|]. simpl. split.
  - intros n p' Hp'. destruct (Hn n p' Hp') as (v & Hv & ? & ? & ?).
    destruct (decide (p' = p)) as [->|Hne].
    + exists v'. rewrite lookup_insert_eq. simplify_eq. by rewrite HN, HC.
    + exists v. by rewrite lookup_insert_ne.
  - intros c p' Hp'. destruct (Hc c p' Hp') as (v & Hv & ? & ? & ?).
    destruct (decide (p' = p)) as [->|Hne].
    + exists v'. rewrite lookup_insert_eq. simplify_eq. by rewrite HN, HC.
    + exists v. by rewrite lookup_insert_ne.
Qed.

(** Filing a student that [Add] accepts keeps the cache consistent. *)
Lemma consistent_filed s p v :
  consistent s →
  heap s !! p = Some v →
  can_add (studentCache s) v = true →
  consistent (mkSt (filed (studentCache s) p v) (heap s) (events s)).
Proof.
  intros (Hl & Hn & Hc) Hp Hcan.
  apply bool_decide_eq_true in Hcan as (HN & HC & Hni & Hci).
  split; [done|]. simpl. split.
  - intros n p' Hp'. destruct (decide (Name v = n)) as [<-|Hne].
    + rewrite lookup_insert_eq in Hp'. injection Hp' as <-.
      exists v. by rewrite lookup_insert_eq.
    + rewrite lookup_insert_ne in Hp' by done.
      destruct (Hn n p' Hp') as (v0 & Hv0 & ? & ? & Hc0).
      exists v0. split; [done|]. split; [done|]. split; [done|].
      rewrite lookup_insert_ne; [done|]. intros Heq. by rewrite Heq, Hc0 in Hci.
  - intros c p' Hp'. destruct (decide (Code v = c)) as [<-|Hne].
    + rewrite lookup_insert_eq in Hp'. injection Hp' as <-.
      exists v. by rewrite lookup_insert_eq.
    + rewrite lookup_insert_ne in Hp' by done.
      destruct (Hc c p' Hp') as (v0 & Hv0 & ? & ? & Hn0).
      exists v0. split; [done|]. split; [done|]. split; [done|].
      rewrite lookup_insert_ne; [done|]. intros Heq. by rewrite Heq, Hn0 in Hni.
Qed.

(** Printing changes nothing the cache is made of. *)
Lemma consistent_events s ev :
  consistent s → consistent (mkSt (studentCache s) (heap s) ev).
Proof. done. Qed.

(** ** StudentDB *)

(** X5. [Add] of a student returns true exactly when the student has a
    name and a positive code and neither is taken; it then files the
    student under both, and otherwise changes neither index. The heap is
    never touched. *)
Theorem Add_both_or_neither s p v :
  lock (studentCache s) = false →
  heap s !! p = Some v →
  ∃ b s',
    Add (Some p) s = Some (b, s')
    ∧ (b = true ↔ Name v ≠ EmptyString ∧ (0 < Code v)%Z
                  ∧ nameIndex (studentCache s) !! Name v = None
                  ∧ codeIndex (studentCache s) !! Code v = None)
    ∧ heap s' = heap s
    ∧ studentCache s'
      = (if b then filed (studentCache s) p v else studentCache s).
Proof.
  intros Hl Hp. eexists _, _. split; [by apply Add_run|].
  split; [apply bool_decide_eq_true|].
  by destruct (can_add (studentCache s) v).
Qed.

(** X6. A student that [Add] has accepted is found by [GetByName] under
    its name and by [GetByCode] under its code, and what is found under
    any other name or code is what was found before. *)
Theorem Add_then_Get s s' p v :
  lock (studentCache s) = false →
  heap s !! p = Some v →
  Add (Some p) s = Some (true, s') →
  GetByName (Name v) s' = Some ((Some p, true), s')
  ∧ GetByCode (Code v) s' = Some ((Some p, true), s')
  ∧ (∀ n, n ≠ Name v → fst <$> GetByName n s' = fst <$> GetByName n s)
  ∧ (∀ c, c ≠ Code v → fst <$> GetByCode c s' = fst <$> GetByCode c s).
Proof.
  intros Hl Hp. rewrite (Add_run _ _ _ Hl Hp).
  destruct (can_add (studentCache s) v); [intros [= <-]|done].
  rewrite !GetByName_run, !GetByCode_run by done. simpl.
  rewrite !lookup_insert_eq. split; [done|]. split; [done|]. split.
  - intros n Hn. rewrite !GetByName_run by done. simpl.
    by rewrite lookup_insert_ne.
  - intros c Hc. rewrite !GetByCode_run by done. simpl.
    by rewrite lookup_insert_ne.
Qed.

(** X7. [Add] keeps the two indexes consistent with each other and with
    the students they point to, whether it accepts the student or not. *)
Theorem Add_consistent s p v :
  consistent s →
  heap s !! p = Some v →
  ∃ b s', Add (Some p) s = Some (b, s') ∧ consistent s'.
Proof.
  intros Hs Hp. pose proof Hs as (Hl & _).
  eexists _, _. split; [by apply Add_run|].
  destruct (can_add (studentCache s) v) eqn:Hcan; [|done].
  by apply consistent_filed.
Qed.

(** In a consistent cache no two names lead to the same student and no
    two filed students bear the same code. *)
Lemma consistent_unique s n1 n2 p1 p2 v1 v2 :
  consistent s →
  nameIndex (studentCache s) !! n1 = Some p1 →
  nameIndex (studentCache s) !! n2 = Some p2 →
  heap s !! p1 = Some v1 →
  heap s !! p2 = Some v2 →
  n1 ≠ n2 →
  p1 ≠ p2 ∧ Code v1 ≠ Code v2.
Proof.
  intros (_ & Hn & _) H1 H2 Hv1 Hv2 Hne.
  destruct (Hn _ _ H1) as (v1' & Hv1' & HN1 & _ & HC1).
  destruct (Hn _ _ H2) as (v2' & Hv2' & HN2 & _ & HC2).
  simplify_eq. split; [by intros ->; simplify_eq|].
  intros Heq. rewrite Heq in HC1. by simplify_eq.
Qed.

(** ** StudentProvider *)

Lemma CreateStudent_run s p v :
  lock (studentCache s) = false →
  heap s !! p = Some v →
  CreateStudent (Some p) s
  = Some (if can_add (studentCache s) v then (Some p, None)
          else match nameIndex (studentCache s) !! Name v with
               | Some _ => (None, Some (errors_New "data is exist"))
               | None => (None, Some (errors_New "add error"))
               end,
          mkSt (if can_add (studentCache s) v
                then filed (studentCache s) p v else studentCache s)
            (heap s)
            (events s ++ [Printf "Req CreateStudent data: %#v \n" [AStudent (Some p)]])).
Proof.
  intros Hl Hp. unfold CreateStudent, deref. run_M. rewrite Hp.
  set (s1 := mkSt _ _ _).
  rewrite (GetByName_run s1) by done. simpl.
  destruct (nameIndex (studentCache s) !! Name v) as [p'|] eqn:Hn; simpl.
  { unfold can_add.
    rewrite bool_decide_eq_false_2; [done|]. intros (_ & _ & ? & _); congruence. }
  rewrite (Add_run s1 p v) by done. simpl.
  by destruct (can_add (studentCache s) v).
Qed.

(** X9. [CreateStudent] of a student answers with that student when its
    name and code are usable and free, and files it under both; it
    answers "data is exist" when the name is taken and "add error" when
    the name is free but empty or the code is taken or not positive, and
    then leaves the cache as it was. *)
Theorem CreateStudent_outcome s p v :
  lock (studentCache s) = false →
  heap s !! p = Some v →
  ∃ res s',
    CreateStudent (Some p) s = Some (res, s')
    ∧ heap s' = heap s
    ∧ match nameIndex (studentCache s) !! Name v,
            codeIndex (studentCache s) !! Code v with
      | Some _, _ =>
          res = (None, Some (errors_New "data is exist"))
          ∧ studentCache s' = studentCache s
      | None, Some _ =>
          res = (None, Some (errors_New "add error"))
          ∧ studentCache s' = studentCache s
      | None, None =>
          if decide (Name v = EmptyString ∨ (Code v ≤ 0)%Z)
          then res = (None, Some (errors_New "add error"))
               ∧ studentCache s' = studentCache s
          else res = (Some p, None)
               ∧ studentCache s' = filed (studentCache s) p v
      end.
Proof.
  intros Hl Hp. eexists _, _. split; [by apply CreateStudent_run|].
  split; [done|]. simpl. unfold can_add.
  destruct (nameIndex (studentCache s) !! Name v) as [p'|] eqn:Hn.
  { rewrite bool_decide_eq_false_2; [done|]. intros (_ & _ & ? & _); congruence. }
  destruct (codeIndex (studentCache s) !! Code v) as [p'|] eqn:Hc.
  { rewrite bool_decide_eq_false_2; [done|]. intros (_ & _ & _ & ?); congruence. }
  destruct (decide (Name v = EmptyString ∨ (Code v ≤ 0)%Z)) as [Hbad|Hok].
  { rewrite bool_decide_eq_false_2; [done|]. intros (? & ? & _).
    destruct Hbad; [done|lia]. }
  rewrite bool_decide_eq_true_2; [done|].
  split; [tauto|]. split; [|done].
  destruct (decide (0 < Code v)%Z); [done|]. exfalso. apply Hok. right. lia.
Qed.

(** X11. A nil student: [CreateStudent] answers "not found" in every
    state, also while the mutex is held, when the same call on a student
    that is not nil blocks; so it answers without taking the lock, and it
    leaves the cache and the heap as they are. [UpdateStudent] does not
    return, and neither does [UpdateStudentByName] when a student is
    filed under the name. *)
Theorem nil_student s name p q :
  nameIndex (studentCache s) !! name = Some p →
  CreateStudent None s
  = Some ((None, Some (errors_New "not found")),
          mkSt (studentCache s) (heap s)
            (events s ++ [Printf "Req CreateStudent data: %#v \n" [AStudent None]]))
  ∧ (if lock (studentCache s) then CreateStudent (Some q) s = None else True)
  ∧ UpdateStudent None s = None
  ∧ UpdateStudentByName name None s = None.
Proof.
  intros Hn. split; [done|].
  destruct s as [[ni ci l] h ev]; simpl in *.
  split.
  { destruct l; [|done]. unfold CreateStudent, deref, GetByName, Lock.
    run_M. by destruct (h !! q). }
  split; [done|].
  unfold UpdateStudentByName, GetByName, Lock, Unlock. run_M.
  destruct l; [done|]. simpl. by rewrite Hn.
Qed.

(** X12. The look-ups never report an error and change neither the
    cache nor the heap: [GetStudentByName], [GetStudentTimeout] and
    [GetStudentByNameAndAge] all answer with what is filed under the
    name, whatever the age asked for, and [GetStudentByCode] with what is
    filed under the code; the answer is nil when nothing is filed. *)
Theorem lookups s name age code :
  consistent s →
  ∃ s1 s2 s3 s4,
    GetStudentByName name s
    = Some ((nameIndex (studentCache s) !! name, None), s1)
    ∧ GetStudentTimeout name s
      = Some ((nameIndex (studentCache s) !! name, None), s2)
    ∧ GetStudentByNameAndAge name age s
      = Some ((nameIndex (studentCache s) !! name, None), s3)
    ∧ GetStudentByCode code s
      = Some ((codeIndex (studentCache s) !! code, None), s4)
    ∧ Forall (λ s', studentCache s' = studentCache s ∧ heap s' = heap s)
        [s1; s2; s3; s4].
Proof.
  intros (Hl & Hn & _).
  unfold GetStudentByName, GetStudentTimeout, GetStudentByNameAndAge,
    GetStudentByCode, deref.
  run_M. rewrite !GetByName_run, !GetByCode_run by done. simpl.
  destruct (codeIndex (studentCache s) !! code) as [p4|]; simpl.
  all: destruct (nameIndex (studentCache s) !! name) as [p|] eqn:Hp; simpl.
  all: try (destruct (Hn _ _ Hp) as (v & -> & _); simpl;
            destruct (bool_decide (Age v = age)); simpl).
  all: eexists _, _, _, _; repeat split; by repeat constructor.
Qed.

(** X13. [GetStudentByNameAndAge] answers with the student filed under
    the name whatever the age asked for, and leaves the cache and the heap
    as they are; the age only decides what is printed: the request line
    alone when the student's age differs, the request line and the result
    line when it is the age asked for. *)
Theorem GetStudentByNameAndAge_age_only_prints s name age p v :
  consistent s →
  nameIndex (studentCache s) !! name = Some p →
  heap s !! p = Some v →
  GetStudentByNameAndAge name age s
  = Some ((Some p, None),
          mkSt (studentCache s) (heap s)
            (events s
             ++ Printf "Req GetStudentByNameAndAge name: %s, age: %d \n"
                  [AString name; AInt age]
                :: (if bool_decide (Age v = age)
                    then [Printf "Req GetStudentByNameAndAge result: %#v \n"
                            [AStudent (Some p)]]
                    else []))).
Proof.
  intros (Hl & _) Hp Hv.
  unfold GetStudentByNameAndAge, deref.
  run_M. rewrite !GetByName_run by done. simpl. rewrite Hp. simpl.
  rewrite Hv. simpl.
  destruct (bool_decide (Age v = age)); simpl; by rewrite <- ?(assoc_L (++)).
Qed.

Lemma UpdateStudentByName_run s name p q old new :
  lock (studentCache s) = false →
  nameIndex (studentCache s) !! name = Some p →
  heap s !! p = Some old →
  heap s !! q = Some new →
  UpdateStudentByName name (Some q) s
  = Some ((true, None),
          mkSt (studentCache s) (<[p := updated old new]> (heap s))
            (events s
             ++ [Printf "Req UpdateStudentByName data: %#v \n" [AStudent (Some q)]])).
Proof.
  intros Hl Hn Hp Hq. unfold UpdateStudentByName. run_M.
  rewrite GetByName_run by done. simpl. rewrite Hn. simpl.
  by rewrite (copy_ID_Age_run _ p q old new).
Qed.

Lemma UpdateStudent_run s p q old new :
  lock (studentCache s) = false →
  heap s !! q = Some new →
  nameIndex (studentCache s) !! Name new = Some p →
  heap s !! p = Some old →
  UpdateStudent (Some q) s
  = Some ((true, None),
          mkSt (studentCache s) (<[p := updated old new]> (heap s))
            (events s
             ++ [Printf "Req UpdateStudent data: %#v \n" [AStudent (Some q)]])).
Proof.
  intros Hl Hq Hn Hp. unfold UpdateStudent, deref. run_M. rewrite Hq.
  rewrite GetByName_run by done. simpl. rewrite Hn. simpl.
  by rewrite (copy_ID_Age_run _ p q old new).
Qed.

(** X14. [UpdateStudent] of a student whose name is filed answers true
    and writes into the filed student the new ID unless it is empty and
    the new age unless it is negative. Name, code and time of the filed
    student and both indexes stay, and the change is seen by a look-up
    under the code, which leads to the same student. *)
Theorem UpdateStudent_found s p q old new :
  consistent s →
  heap s !! q = Some new →
  nameIndex (studentCache s) !! Name new = Some p →
  heap s !! p = Some old →
  ∃ s',
    UpdateStudent (Some q) s = Some ((true, None), s')
    ∧ studentCache s' = studentCache s
    ∧ heap s' = <[p := updated old new]> (heap s)
    ∧ fst <$> GetStudentByCode (Code old) s' = Some (Some p, None)
    ∧ heap s' !! p = Some (updated old new).
Proof.
  intros Hs Hq Hn Hp. pose proof Hs as (Hl & Hname & _).
  eexists. split; [by eapply UpdateStudent_run|]. simpl.
  split; [done|]. split; [done|]. split; [|by rewrite lookup_insert_eq].
  destruct (Hname _ _ Hn) as (v & Hv & _ & _ & Hc). simplify_eq.
  unfold GetStudentByCode. run_M. rewrite GetByCode_run by done. simpl.
  by rewrite Hc.
Qed.

(** X15. [UpdateStudentByName] does the same to the student filed under
    the name it is given, whatever the name of the student passed. *)
Theorem UpdateStudentByName_found s name p q old new :
  consistent s →
  nameIndex (studentCache s) !! name = Some p →
  heap s !! p = Some old →
  heap s !! q = Some new →
  ∃ s',
    UpdateStudentByName name (Some q) s = Some ((true, None), s')
    ∧ studentCache s' = studentCache s
    ∧ heap s' = <[p := updated old new]> (heap s)
    ∧ consistent s'.
Proof.
  intros Hs Hn Hp Hq. pose proof Hs as (Hl & _).
  eexists. split; [by eapply UpdateStudentByName_run|]. simpl.
  split; [done|]. split; [done|].
  by apply (consistent_update (mkSt (studentCache s) (heap s) _) p old).
Qed.

(** X16. When no student is filed under the name, both update methods
    answer false with "not found" and leave the cache and the heap as
    they were; [UpdateStudentByName] does so even for a nil student. *)
Theorem update_not_found s name q new student :
  lock (studentCache s) = false →
  heap s !! q = Some new →
  nameIndex (studentCache s) !! Name new = None →
  nameIndex (studentCache s) !! name = None →
  ∃ s1 s2,
    UpdateStudent (Some q) s
    = Some ((false, Some (errors_New "not found")), s1)
    ∧ UpdateStudentByName name student s
      = Some ((false, Some (errors_New "not found")), s2)
    ∧ Forall (λ s', studentCache s' = studentCache s ∧ heap s' = heap s)
        [s1; s2].
Proof.
  intros Hl Hq Hn1 Hn2. unfold UpdateStudent, UpdateStudentByName, deref.
  run_M. rewrite Hq. rewrite !GetByName_run by done. simpl.
  rewrite Hn1, Hn2. simpl. eexists _, _. repeat split; by repeat constructor.
Qed.

(** X17. [UpdateStudent] returns on every allocated student and keeps the
    cache consistent. *)
Theorem UpdateStudent_consistent s q new :
  consistent s →
  heap s !! q = Some new →
  ∃ res s', UpdateStudent (Some q) s = Some (res, s') ∧ consistent s'.
Proof.
  intros Hs Hq. pose proof Hs as (Hl & Hname & _).
  destruct (nameIndex (studentCache s) !! Name new) as [p|] eqn:Hn.
  - destruct (Hname _ _ Hn) as (old & Hp & _).
    eexists _, _. split; [by eapply UpdateStudent_run|].
    by apply (consistent_update (mkSt (studentCache s) (heap s) _) p old).
  - eexists _, _. split.
    { unfold UpdateStudent, deref. run_M. rewrite Hq.
      rewrite GetByName_run by done. simpl. by rewrite Hn. }
    exact (consistent_events s _ Hs).
Qed.

(** X10. [CreateStudent] returns on every allocated student and keeps the
    cache consistent. *)
Theorem CreateStudent_consistent s p v :
  consistent s →
  heap s !! p = Some v →
  ∃ res s', CreateStudent (Some p) s = Some (res, s') ∧ consistent s'.
Proof.
  intros Hs Hp. pose proof Hs as (Hl & _).
  eexists _, _. split; [by apply CreateStudent_run|].
  destruct (can_add (studentCache s) v) eqn:Hcan.
  - by apply (consistent_filed (mkSt (studentCache s) (heap s) _)).
  - exact (consistent_events s _ Hs).
Qed.

(** ** init *)

Lemma consistent_alloc s p v :
  consistent s →
  heap s !! p = None →
  consistent (mkSt (studentCache s) (<[p := v]> (heap s)) (events s)).
Proof.
  intros (Hl & Hn & Hc) Hp. split; [done|]. simpl. split.
  - intros n p' Hp'. destruct (Hn n p' Hp') as (v0 & Hv0 & ?).
    exists v0. split; [|done]. rewrite lookup_insert_ne; [done|].
    intros ->. congruence.
  - intros c p' Hp'. destruct (Hc c p' Hp') as (v0 & Hv0 & ?).
    exists v0. split; [|done]. rewrite lookup_insert_ne; [done|].
    intros ->. congruence.
Qed.

Lemma init_booted now1 now2 : init now1 now2 boot = Some (tt, booted now1 now2).
Proof. vm_compute. reflexivity. Qed.

Lemma booted_consistent now1 now2 : consistent (booted now1 now2).
Proof.
  set (v1 := mkStudent "0001" 1 "tc-student" 18 now1).
  set (v2 := mkStudent "0002" 2 "ic-student" 88 now2).
  set (ev := [SetProviderService; RegisterPOJO]).
  assert (H0 : consistent (mkSt (mkDB ∅ ∅ false) ∅ ev)).
  { split; [done|]. split; intros ? ? Hx; simpl in Hx;
      by rewrite lookup_empty in Hx. }
  pose proof (consistent_alloc _ 1%positive v1 H0 eq_refl) as H1.
  pose proof (consistent_filed _ 1%positive v1 H1 eq_refl eq_refl) as H2.
  pose proof (consistent_alloc _ 2%positive v2 H2 eq_refl) as H3.
  exact (consistent_filed _ 2%positive v2 H3 eq_refl eq_refl).
Qed.

Lemma sample_consistent : consistent sample.
Proof.
  pose proof (booted_consistent 0 0) as H0.
  pose proof (consistent_alloc _ 3%positive newcomer H0 eq_refl) as H1.
  exact (consistent_alloc _ 4%positive revision H1 eq_refl).
Qed.

(** X8. [init] returns and leaves a consistent cache in which exactly the
    two built-in students are filed, each under its name and its code. *)
Theorem init_consistent now1 now2 :
  ∃ s p1 p2,
    init now1 now2 boot = Some (tt, s)
    ∧ consistent s
    ∧ nameIndex (studentCache s)
      = <["tc-student" := p1]> (<["ic-student" := p2]> ∅)
    ∧ codeIndex (studentCache s) = <[1%Z := p1]> (<[2%Z := p2]> ∅)
    ∧ heap s !! p1 = Some (mkStudent "0001" 1 "tc-student" 18 now1)
    ∧ heap s !! p2 = Some (mkStudent "0002" 2 "ic-student" 88 now2).
Proof.
  exists (booted now1 now2), 1%positive, 2%positive.
  split; [apply init_booted|]. split; [apply booted_consistent|].
  repeat split; vm_compute; reflexivity.
Qed.

(** ** The theorems at work on the sample state *)

Lemma Add_both_or_neither_witness :
  ∃ b s',
    Add (Some 3%positive) sample = Some (b, s')
    ∧ (b = true ↔ Name newcomer ≠ EmptyString ∧ (0 < Code newcomer)%Z
                  ∧ nameIndex (studentCache sample) !! Name newcomer = None
                  ∧ codeIndex (studentCache sample) !! Code newcomer = None)
    ∧ heap s' = heap sample
    ∧ studentCache s'
      = (if b then filed (studentCache sample) 3%positive newcomer
         else studentCache sample).
Proof.
  apply (Add_both_or_neither sample 3%positive newcomer); reflexivity.
Defined.

Lemma Add_then_Get_witness :
  ∃ s',
    Add (Some 3%positive) sample = Some (true, s')
    ∧ GetByName "zc-student" s' = Some ((Some 3%positive, true), s')
    ∧ GetByCode 3 s' = Some ((Some 3%positive, true), s')
    ∧ (∀ n, n ≠ "zc-student" →
         fst <$> GetByName n s' = fst <$> GetByName n sample)
    ∧ (∀ c, c ≠ 3%Z → fst <$> GetByCode c s' = fst <$> GetByCode c sample).
Proof.
  eexists. split; [vm_compute; reflexivity|].
  apply (Add_then_Get sample _ 3%positive newcomer);
    [reflexivity|reflexivity|vm_compute; reflexivity].
Defined.

Lemma Add_consistent_witness :
  ∃ b s', Add (Some 3%positive) sample = Some (b, s') ∧ consistent s'.
Proof.
  apply (Add_consistent sample 3%positive newcomer);
    [exact sample_consistent|reflexivity].
Defined.

Lemma CreateStudent_outcome_witness :
  ∃ res s',
    CreateStudent (Some 4%positive) sample = Some (res, s')
    ∧ heap s' = heap sample
    ∧ res = (None, Some (errors_New "data is exist"))
    ∧ studentCache s' = studentCache sample.
Proof.
  apply (CreateStudent_outcome sample 4%positive revision); reflexivity.
Defined.

Lemma CreateStudent_consistent_witness :
  ∃ res s', CreateStudent (Some 3%positive) sample = Some (res, s') ∧ consistent s'.
Proof.
  apply (CreateStudent_consistent sample 3%positive newcomer);
    [exact sample_consistent|reflexivity].
Defined.

Lemma nil_student_witness :
  CreateStudent None sample_locked
  = Some ((None, Some (errors_New "not found")),
          mkSt (studentCache sample_locked) (heap sample_locked)
            (events sample_locked
             ++ [Printf "Req CreateStudent data: %#v \n" [AStudent None]]))
  ∧ CreateStudent (Some 3%positive) sample_locked = None
  ∧ UpdateStudent None sample_locked = None
  ∧ UpdateStudentByName "tc-student" None sample_locked = None.
Proof.
  apply (nil_student sample_locked "tc-student" 1%positive 3%positive).
  reflexivity.
Defined.

Lemma lookups_witness :
  ∃ s1 s2 s3 s4,
    GetStudentByName "tc-student" sample
    = Some ((nameIndex (studentCache sample) !! "tc-student", None), s1)
    ∧ GetStudentTimeout "tc-student" sample
      = Some ((nameIndex (studentCache sample) !! "tc-student", None), s2)
    ∧ GetStudentByNameAndAge "tc-student" 99 sample
      = Some ((nameIndex (studentCache sample) !! "tc-student", None), s3)
    ∧ GetStudentByCode 5 sample
      = Some ((codeIndex (studentCache sample) !! 5%Z, None), s4)
    ∧ Forall (λ s', studentCache s' = studentCache sample
                    ∧ heap s' = heap sample) [s1; s2; s3; s4].
Proof. apply (lookups sample "tc-student" 99 5). exact sample_consistent. Defined.

(** Asked for age 99 and for age 18, of a student aged 18. *)
Lemma GetStudentByNameAndAge_age_only_prints_witness :
  GetStudentByNameAndAge "tc-student" 99 sample
  = Some ((Some 1%positive, None),
          mkSt (studentCache sample) (heap sample)
            (events sample
             ++ [Printf "Req GetStudentByNameAndAge name: %s, age: %d \n"
                   [AString "tc-student"; AInt 99]]))
  ∧ GetStudentByNameAndAge "tc-student" 18 sample
    = Some ((Some 1%positive, None),
            mkSt (studentCache sample) (heap sample)
              (events sample
               ++ [Printf "Req GetStudentByNameAndAge name: %s, age: %d \n"
                     [AString "tc-student"; AInt 18];
                   Printf "Req GetStudentByNameAndAge result: %#v \n"
                     [AStudent (Some 1%positive)]])).
Proof.
  split.
  - apply (GetStudentByNameAndAge_age_only_prints sample "tc-student" 99
             1%positive (mkStudent "0001" 1 "tc-student" 18 0));
      [exact sample_consistent|reflexivity|reflexivity].
  - apply (GetStudentByNameAndAge_age_only_prints sample "tc-student" 18
             1%positive (mkStudent "0001" 1 "tc-student" 18 0));
      [exact sample_consistent|reflexivity|reflexivity].
Defined.

Lemma UpdateStudent_found_witness :
  ∃ s',
    UpdateStudent (Some 4%positive) sample = Some ((true, None), s')
    ∧ studentCache s' = studentCache sample
    ∧ heap s'
      = <[1%positive := updated (mkStudent "0001" 1 "tc-student" 18 0) revision]>
          (heap sample)
    ∧ fst <$> GetStudentByCode 1 s' = Some (Some 1%positive, None)
    ∧ heap s' !! 1%positive = Some (mkStudent "1111" 1 "tc-student" 18 0).
Proof.
  apply (UpdateStudent_found sample 1%positive 4%positive
           (mkStudent "0001" 1 "tc-student" 18 0) revision);
    [exact sample_consistent|reflexivity|reflexivity|reflexivity].
Defined.

Lemma UpdateStudentByName_found_witness :
  ∃ s',
    UpdateStudentByName "ic-student" (Some 4%positive) sample
    = Some ((true, None), s')
    ∧ studentCache s' = studentCache sample
    ∧ heap s'
      = <[2%positive := updated (mkStudent "0002" 2 "ic-student" 88 0) revision]>
          (heap sample)
    ∧ consistent s'.
Proof.
  apply (UpdateStudentByName_found sample "ic-student" 2%positive 4%positive
           (mkStudent "0002" 2 "ic-student" 88 0) revision);
    [exact sample_consistent|reflexivity|reflexivity|reflexivity].
Defined.

Lemma update_not_found_witness :
  ∃ s1 s2,
    UpdateStudent (Some 3%positive) sample
    = Some ((false, Some (errors_New "not found")), s1)
    ∧ UpdateStudentByName "nobody" None sample
      = Some ((false, Some (errors_New "not found")), s2)
    ∧ Forall (λ s', studentCache s' = studentCache sample
                    ∧ heap s' = heap sample) [s1; s2].
Proof.
  apply (update_not_found sample "nobody" 3%positive newcomer None);
    reflexivity.
Defined.

Lemma UpdateStudent_consistent_witness :
  ∃ res s', UpdateStudent (Some 4%positive) sample = Some (res, s') ∧ consistent s'.
Proof.
  apply (UpdateStudent_consistent sample 4%positive revision);
    [exact sample_consistent|reflexivity].
Defined.

End student_props.
